(** * PageRank: the transition model, the sampling estimator and the
      iterative estimator of [pagerank.py], embedded and verified.

    The Python program computes on binary64 floats.  The embedding is written
    once over an interface [PyFloat] of the arithmetic the program uses and is
    instantiated twice: with the kernel's primitive binary64 floats (what the
    program runs on) and with the canonical rationals [Qc] (the arithmetic the
    program approximates).  Theorems that need no law of arithmetic are proved
    for every instance, so they hold of the binary64 program; theorems about
    exact sums are proved for [Qc]. *)

From Stdlib Require Import ZArith QArith Qabs Qcanon List String Bool Lia Permutation.
From Stdlib Require Import Floats.PrimFloat.
Import ListNotations.

#[local] Open Scope string_scope.
#[local] Open Scope list_scope.
#[local] Open Scope Z_scope.

(** ** Exceptions *)

Inductive exn : Set := ZeroDivisionError | KeyError | IndexError | ValueError.

Inductive res (A : Type) : Type :=
| Ok (a : A)
| Raise (e : exn).

Arguments Ok {A} a.
Arguments Raise {A} e.

Definition bind {A B : Type} (m : res A) (k : A -> res B) : res B :=
  match m with
  | Ok a => k a
  | Raise e => Raise e
  end.

Notation "x <- m ;; k" := (bind m (fun x => k))
  (at level 61, m at next level, right associativity).
Notation "' p <- m ;; k" := (bind m (fun x => let p := x in k))
  (at level 61, p pattern, m at next level, right associativity).

(** A [for] loop over a list whose body may raise. *)
Fixpoint for_each {A S : Type} (body : S -> A -> res S) (l : list A) (s : S)
  : res S :=
  match l with
  | [] => Ok s
  | a :: l' => s' <- body s a ;; for_each body l' s'
  end.

(** ** Dictionaries

    A Python [dict] iterates in insertion order and assigning to a present key
    keeps the key's position; both matter below (the order of the in-place
    update, the order of a float sum), so a dictionary is an association list
    with these two operations. *)

Definition dict (V : Type) : Type := list (string * V).

Fixpoint dget {V : Type} (k : string) (d : dict V) : option V :=
  match d with
  | [] => None
  | (k', v) :: t => if String.eqb k k' then Some v else dget k t
  end.

Fixpoint dset {V : Type} (k : string) (v : V) (d : dict V) : dict V :=
  match d with
  | [] => [(k, v)]
  | (k', v') :: t =>
      if String.eqb k k' then (k, v) :: t else (k', v') :: dset k v t
  end.

Definition keys {V : Type} (d : dict V) : list string := map fst d.
Definition values {V : Type} (d : dict V) : list V := map snd d.

(** [d[k]] *)
Definition item {V : Type} (k : string) (d : dict V) : res V :=
  match dget k d with
  | Some v => Ok v
  | None => Raise KeyError
  end.

Definition len {A : Type} (l : list A) : Z := Z.of_nat (List.length l).

(** [i in s] for a set [s] of page names. *)
Definition contains (i : string) (s : list string) : bool :=
  existsb (String.eqb i) s.

(** [range(n)]: empty when [n <= 0]. *)
Definition range (n : Z) : list nat := seq 0 (Z.to_nat n).

(** The total of a list of counters. *)
Definition Zsum (xs : list Z) : Z := fold_right Z.add 0 xs.

(** The corpus: page name to out-set.  A set is a duplicate-free list; the
    program never depends on the order in which a set is enumerated. *)
Definition Corpus : Type := dict (list string).

Definition wf_corpus (corpus : Corpus) : Prop :=
  NoDup (keys corpus) /\
  Forall (fun kv => NoDup (snd kv) /\ incl (snd kv) (keys corpus)) corpus.

(** ** Arithmetic *)

Class PyFloat (F : Type) : Type := {
  of_int : Z -> F;            (* int operand converted to float *)
  lit_0_001 : F;              (* the literal 0.001 *)
  lit_0_85 : F;               (* the literal 0.85 *)
  fadd : F -> F -> F;
  fsub : F -> F -> F;
  fmul : F -> F -> F;
  fquot : F -> F -> F;        (* the quotient, divisor known non-zero *)
  fabs : F -> F;
  fle : F -> F -> bool;
  is_zero : F -> bool;        (* x == 0.0 *)
  is_finite : F -> bool       (* math.isfinite(x) *)
}.

(** binary64.  [of_int] is the exact conversion for |z| < 2^53, which covers
    every length and counter the program converts. *)
Fixpoint float_of_pos (p : positive) : float :=
  match p with
  | xH => 1%float
  | xO q => (2 * float_of_pos q)%float
  | xI q => (2 * float_of_pos q + 1)%float
  end.

Definition float_of_Z (z : Z) : float :=
  match z with
  | Z0 => 0%float
  | Zpos p => float_of_pos p
  | Zneg p => (- float_of_pos p)%float
  end.

#[global] Instance PyFloat_binary64 : PyFloat float := {|
  of_int := float_of_Z;
  lit_0_001 := 0x1.0624dd2f1a9fcp-10%float;
  lit_0_85 := 0x1.b333333333333p-1%float;
  fadd := PrimFloat.add;
  fsub := PrimFloat.sub;
  fmul := PrimFloat.mul;
  fquot := PrimFloat.div;
  fabs := PrimFloat.abs;
  fle := PrimFloat.leb;
  is_zero := fun x => PrimFloat.eqb x 0%float;
  is_finite := PrimFloat.is_finite
|}.

(** Exact rationals. *)
#[global] Instance PyFloat_Qc : PyFloat Qc := {|
  of_int := fun z => Q2Qc (inject_Z z);
  lit_0_001 := Q2Qc (1 # 1000);
  lit_0_85 := Q2Qc (85 # 100);
  fadd := Qcplus;
  fsub := Qcminus;
  fmul := Qcmult;
  fquot := Qcdiv;
  fabs := fun x => Q2Qc (Qabs x);
  fle := fun x y => Qle_bool x y;
  is_zero := fun x => Qeq_bool x 0;
  is_finite := fun _ => true
|}.

Section Program.

Context {F : Type} `{PyFloat F}.

(** [x / n] for an int [n] (a length or the sample count). *)
Definition div_int (x : F) (n : Z) : res F :=
  if n =? 0 then Raise ZeroDivisionError else Ok (fquot x (of_int n)).

(** [x / y] for a float [y]. *)
Definition div_float (x y : F) : res F :=
  if is_zero y then Raise ZeroDivisionError else Ok (fquot x y).

(** [sum(xs)]: the terms added left to right, from the int 0, as the
    interpreter of the program's time does (later interpreters compensate the
    rounding of a float sum). *)
Definition py_sum (xs : list F) : F := fold_left fadd xs (of_int 0).

Definition DAMPING : F := lit_0_85.
Definition SAMPLES : Z := 10000.

(** ** transition_model *)

Definition transition_model (corpus : Corpus) (page : string)
    (damping_factor : F) : res (dict F) :=
  for_each (fun result p =>
      initual <- div_int (fsub (of_int 1) damping_factor) (len corpus) ;;
      links <- item page corpus ;;
      initual <- for_each (fun initual i =>
          if String.eqb p i then
            q <- div_int damping_factor (len links) ;;
            Ok (fadd initual q)
          else Ok initual) links initual ;;
      initual <- (if len links =? 0 then
                    q <- div_int damping_factor (len corpus) ;;
                    Ok (fadd initual q)
                  else Ok initual) ;;
      Ok (dset p initual result))
    (keys corpus) [].

(** ** The random source

    [random.choice] and [random.choices] belong to the Python library; the
    program is parameterised by the draws they make, which thread the
    generator state.  What the library does before it draws is part of the
    model: [random.choice] raises IndexError on an empty sequence, and
    [random.choices] with [weights] accumulates the weights, compares their
    number with the size of the population and raises ValueError unless their
    total is greater than zero and finite.  Once these checks have passed, a
    draw returns an element of the population: that is all that is assumed
    of the library ([random_sound]). *)

Record Random : Type := {
  rng : Type;
  random_choice : list string -> rng -> string * rng;
  random_choices : list string -> list F -> rng -> string * rng
}.

(** [itertools.accumulate(weights)]: the running totals, from the left. *)
Fixpoint accumulate_from (total : F) (weights : list F) : list F :=
  match weights with
  | [] => []
  | w :: weights' =>
      let total := fadd total w in total :: accumulate_from total weights'
  end.

Definition accumulate (weights : list F) : list F :=
  match weights with
  | [] => []
  | w :: weights' => w :: accumulate_from w weights'
  end.

(** [seq[-1]] *)
Definition last_item {A : Type} (l : list A) : res A :=
  match l with
  | [] => Raise IndexError
  | a :: l' => Ok (last l' a)
  end.

(** [random.choices(population, weights=weights, k=1)] up to the draw: the
    total of the weights, or the exception the library raises. *)
Definition choices_total (population : list string) (weights : list F)
  : res F :=
  let cum_weights := accumulate weights in
  if negb (len cum_weights =? len population) then Raise ValueError
  else
    c <- last_item cum_weights ;;
    let total := fadd c (of_int 0) in
    if fle total (of_int 0) then Raise ValueError
    else if negb (is_finite total) then Raise ValueError
    else Ok total.

Definition random_sound (R : Random) : Prop :=
  (forall l g, l <> [] -> In (fst (random_choice R l g)) l) /\
  (forall l w g total,
      choices_total l w = Ok total -> In (fst (random_choices R l w g)) l).

(** [random.choice(seq)]: raises IndexError on an empty sequence. *)
Definition py_choice (R : Random) (l : list string) (g : rng R)
  : res (string * rng R) :=
  match l with
  | [] => Raise IndexError
  | _ => Ok (random_choice R l g)
  end.

(** [random.choices(population, weights=weights, k=1)[0]] *)
Definition py_choices (R : Random) (population : list string)
    (weights : list F) (g : rng R) : res (string * rng R) :=
  _ <- choices_total population weights ;;
  Ok (random_choices R population weights g).

(** ** sample_pagerank

    [result] holds int counters during the walk; the last loop overwrites each
    counter with its quotient.  The keys of [result] are the keys of the corpus,
    each read once before it is written, so the quotients are collected in a
    dictionary of floats over the same keys in the same order. *)

Definition sample_step (R : Random) (corpus : Corpus) (damping_factor : F)
    (st : dict Z * string * rng R) (_ : nat) : res (dict Z * string * rng R) :=
  let '(result, currentPage, g) := st in
  c <- item currentPage result ;;
  let result := dset currentPage (c + 1) result in
  moves <- transition_model corpus currentPage damping_factor ;;
  let moves_name := keys moves in
  let moves_chances := values moves in
  ' (currentPage, g) <- py_choices R moves_name moves_chances g ;;
  Ok (result, currentPage, g).

Definition sample_walk (R : Random) (corpus : Corpus) (damping_factor : F)
    (n : Z) (g : rng R) : res (dict Z) :=
  let result := fold_left (fun r i => dset i 0 r) (keys corpus) [] in
  let currentPage_name := keys corpus in
  ' (currentPage, g) <- py_choice R currentPage_name g ;;
  ' (result, _, _) <-
      for_each (sample_step R corpus damping_factor) (range n)
               (result, currentPage, g) ;;
  Ok result.

Definition sample_pagerank (R : Random) (corpus : Corpus) (damping_factor : F)
    (n : Z) (g : rng R) : res (dict F) :=
  result <- sample_walk R corpus damping_factor n g ;;
  for_each (fun out i =>
      c <- item i result ;;
      q <- div_int (of_int c) n ;;
      Ok (dset i q out))
    (keys corpus) [].

(** ** iterate_pagerank *)

(** Lines 135-143: the new rank of page [i], read from [previous_Iteration]
    as it stands when [i] is reached. *)
Definition new_rank (corpus : Corpus) (damping_factor : F)
    (previous_Iteration : dict F) (i : string) : res F :=
  current_Iteration <-
    div_int (fsub (of_int 1) damping_factor) (len corpus) ;;
  sum_Iteration <- for_each (fun sum_Iteration p =>
      links <- item p corpus ;;
      if contains i links then
        r <- item p previous_Iteration ;;
        q <- div_int r (len links) ;;
        Ok (fadd sum_Iteration q)
      else Ok sum_Iteration)
    (keys corpus) (of_int 0) ;;
  Ok (fadd current_Iteration (fmul damping_factor sum_Iteration)).

(** [abs(b)] of a bool and the truth value of an int. *)
Definition abs_bool (b : bool) : Z := if b then 1 else 0.
Definition truthy (z : Z) : bool := negb (z =? 0).

(** Line 146: [abs(previous_Iteration[i] - current_Iteration <= 0.001)]. *)
Definition check_test (previous current : F) : bool :=
  truthy (abs_bool (fle (fsub previous current) lit_0_001)).

(** Lines 134-149: the body of the [for i in corpus] loop. *)
Definition pass_step (corpus : Corpus) (damping_factor : F)
    (st : dict F * Z) (i : string) : res (dict F * Z) :=
  let '(previous_Iteration, check) := st in
  current_Iteration <- new_rank corpus damping_factor previous_Iteration i ;;
  old <- item i previous_Iteration ;;
  let check := if check_test old current_Iteration then check + 1 else check in
  Ok (dset i current_Iteration previous_Iteration, check).

(** One pass of the [while] body up to the test of [check]. *)
Definition one_pass (corpus : Corpus) (damping_factor : F)
    (previous_Iteration : dict F) : res (dict F * Z) :=
  for_each (pass_step corpus damping_factor) (keys corpus)
           (previous_Iteration, 0).

(** Lines 154-156.  The [print] of line 157 writes to standard output and does
    not change the returned dictionary. *)
Definition normalize (previous_Iteration : dict F) : res (dict F) :=
  let normalizer := py_sum (values previous_Iteration) in
  for_each (fun d i =>
      v <- item i d ;;
      q <- div_float v normalizer ;;
      Ok (dset i q d))
    (keys previous_Iteration) previous_Iteration.

(** Lines 127-129. *)
Definition initial_ranks (corpus : Corpus) : res (dict F) :=
  for_each (fun previous_Iteration i =>
      q <- div_int (of_int 1) (len corpus) ;;
      Ok (dset i q previous_Iteration))
    (keys corpus) [].

(** [while True]: [fuel] bounds the number of passes the model runs; [None]
    means that the loop is still running after [fuel] passes. *)
Fixpoint iterate_loop (fuel : nat) (corpus : Corpus) (damping_factor : F)
    (previous_Iteration : dict F) : option (res (dict F)) :=
  match fuel with
  | O => None
  | S fuel' =>
      match one_pass corpus damping_factor previous_Iteration with
      | Raise e => Some (Raise e)
      | Ok (previous_Iteration, check) =>
          if check =? len corpus then Some (normalize previous_Iteration)
          else iterate_loop fuel' corpus damping_factor previous_Iteration
      end
  end.

Definition iterate_pagerank (fuel : nat) (corpus : Corpus)
    (damping_factor : F) : option (res (dict F)) :=
  match initial_ranks corpus with
  | Raise e => Some (Raise e)
  | Ok previous_Iteration =>
      iterate_loop fuel corpus damping_factor previous_Iteration
  end.

(** ** The specification's wording, for comparison *)

(** The convergence test as the specification words it:
    [abs(previous[i] - current[i]) <= 0.001]. *)
Definition spec_converged (previous current : F) : bool :=
  fle (fabs (fsub previous current)) lit_0_001.


(** The pass as the specification words it: every new rank is computed from
    the same snapshot. *)
Definition spec_synchronous_pass (corpus : Corpus) (d : F)
    (snapshot : dict F) : res (dict F) :=
  for_each (fun new i =>
      v <- new_rank corpus d snapshot i ;;
      Ok (dset i v new))
    (keys corpus) snapshot.

(** ** Auxiliary definitions of the proofs *)

(** The weight the loop body computes for page [p], when the current page has
    out-set [links]: the teleport term, plus one share of the damping factor
    for every occurrence of [p] in [links], plus the sink term. *)
Definition teleport (corpus : Corpus) (d : F) : F :=
  fquot (fsub (of_int 1) d) (of_int (len corpus)).

Definition follow (links : list string) (d : F) (p : string) (x : F) : F :=
  Nat.iter (count_occ string_dec links p)
           (fun y => fadd y (fquot d (of_int (len links)))) x.

Definition weight (corpus : Corpus) (links : list string) (d : F) (p : string)
  : F :=
  let v := follow links d p (teleport corpus d) in
  if len links =? 0 then fadd v (fquot d (of_int (len corpus))) else v.

(** What every iteration of the walk preserves. *)
Definition walk_inv (R : Random) (corpus : Corpus) (total : Z)
    (st : dict Z * string * rng R) : Prop :=
  let '(result, currentPage, _) := st in
  keys result = keys corpus /\
  In currentPage (keys corpus) /\
  Forall (fun x => 0 <= x) (values result) /\
  Zsum (values result) = total.

(** [random.choices] accepts the weights of the transition model at [page],
    and at every page of the corpus. *)
Definition accepted_at (corpus : Corpus) (d : F) (page : string) : bool :=
  match transition_model corpus page d with
  | Ok moves =>
      match choices_total (keys moves) (values moves) with
      | Ok _ => true
      | Raise _ => false
      end
  | Raise _ => false
  end.

Definition weights_accepted (corpus : Corpus) (d : F) : bool :=
  forallb (accepted_at corpus d) (keys corpus).

(** Whether page [i] passed the test of line 146 in a pass that took the
    vector [prev] to the vector [new]. *)
Definition passed (prev new : dict F) (i : string) : bool :=
  match dget i prev, dget i new with
  | Some a, Some b => check_test a b
  | _, _ => false
  end.

(** The outcome of pass number [j] (counting from 0), the test of [check]
    left aside. *)
Fixpoint nth_pass (j : nat) (corpus : Corpus) (d : F) (s : dict F)
  : res (dict F * Z) :=
  match j with
  | O => one_pass corpus d s
  | S j' => st <- one_pass corpus d s ;; nth_pass j' corpus d (fst st)
  end.

(** Pass [j] ran and left the loop running. *)
Definition keeps_running (corpus : Corpus) (d : F) (s : dict F) (j : nat)
  : Prop :=
  exists s' check, nth_pass j corpus d s = Ok (s', check) /\ check <> len corpus.

End Program.

Arguments Random F : clear implicits.

(** Sums in exact arithmetic. *)
Definition Qsum (xs : list Qc) : Qc := fold_right Qcplus 0%Qc xs.

(** The same graph: the same pages in the same order, each out-set the same
    set, enumerated in any order. *)
Definition same_graph (c1 c2 : Corpus) : Prop :=
  Forall2 (fun a b => fst a = fst b /\ Permutation (snd a) (snd b)) c1 c2.

(** ** A concrete random source

    The random source that replays a script: draw number [g] returns the
    element at index [script g], modulo the size of the population. *)
Definition scripted (F : Type) (script : nat -> nat) : Random F := {|
  rng := nat;
  random_choice := fun l g =>
    (nth (Nat.modulo (script g) (List.length l)) l "", S g);
  random_choices := fun l _ g =>
    (nth (Nat.modulo (script g) (List.length l)) l "", S g)
|}.

(** ** Concrete inputs *)

Definition single_page : Corpus := [("a.html", [])].

Definition chain_corpus : Corpus :=
  [("1.html", ["2.html"]); ("2.html", ["3.html"]); ("3.html", ["2.html"])].

Definition sink_corpus : Corpus :=
  [("a.html", []); ("b.html", ["a.html"])].

Definition five_sinks : Corpus :=
  [("a.html", []); ("b.html", []); ("c.html", []); ("d.html", []);
   ("e.html", [])].

Definition scenario_corpus : Corpus :=
  [("1.html", ["2.html"]); ("2.html", ["1.html"; "3.html"]);
   ("3.html", ["2.html"])].

(** The script of the walk that visits "1.html" 8 times, then "2.html" 9
    times, then "3.html". *)
Definition visits (g : nat) : nat :=
  if (g <? 8)%nat then 0%nat else if (g <? 17)%nat then 1%nat else 2%nat.

(** Two pages that link to each other. *)
Definition two_cycle : Corpus :=
  [("1.html", ["2.html"]); ("2.html", ["1.html"])].

Definition cycle_corpus : Corpus :=
  [("1.html", ["2.html"]); ("2.html", ["1.html"]); ("3.html", ["1.html"])].

Definition scenario_corpus_reordered : Corpus :=
  [("1.html", ["2.html"]); ("2.html", ["3.html"; "1.html"]);
   ("3.html", ["2.html"])].


(** ** crawl

    The file system and the regular-expression library are parameters: a
    directory is its listing, in the order [os.listdir] gives it, each name
    with the text [read] returns for it, and [findall] is [re.findall] with
    the pattern of line 38.  What the file system can raise is left out. *)

(** [s.endswith(suffix)] *)
Definition endswith (s suffix : string) : bool :=
  let n := String.length s in
  let m := String.length suffix in
  (m <=? n)%nat && String.eqb (substring (n - m) m s) suffix.

(** [link in pages] *)
Definition in_pages (link : string) (pages : Corpus) : bool :=
  contains link (keys pages).

(** Lines 34-39: the body of the first loop.  [set(links) - {filename}] keeps
    one copy of each link and drops the file's own name. *)
Definition crawl_read (findall : string -> list string) (pages : Corpus)
    (entry : string * string) : Corpus :=
  let '(filename, contents) := entry in
  if negb (endswith filename ".html") then pages
  else
    let links := findall contents in
    dset filename
         (filter (fun link => negb (String.eqb link filename))
                 (nodup string_dec links))
         pages.

(** Lines 43-46: the body of the second loop. *)
Definition crawl_filter (pages : Corpus) (filename : string) : res Corpus :=
  links <- item filename pages ;;
  Ok (dset filename (filter (fun link => in_pages link pages) links) pages).

Definition crawl (findall : string -> list string)
    (directory : list (string * string)) : res Corpus :=
  let pages := fold_left (crawl_read findall) directory [] in
  for_each crawl_filter (keys pages) pages.

(** The names of a listing that end in ".html". *)
Definition html_files (directory : list (string * string)) : list string :=
  filter (fun name => endswith name ".html") (map fst directory).

(** A small directory: two pages that link to each other, to themselves, to a
    page that is not there and to a file that is no page. *)
Definition example_directory : list (string * string) :=
  [("index.html", "A"); ("notes.txt", "B"); ("about.html", "C")].

Definition example_findall (contents : string) : list string :=
  if String.eqb contents "A" then
    ["about.html"; "index.html"; "about.html"; "gone.html"]
  else if String.eqb contents "C" then ["index.html"; "notes.txt"]
  else ["index.html"].

(** ** The chain behind the two estimators *)

Section Chain.

Context {F : Type} `{PyFloat F}.

(** The rank a vector holds for a page. *)
Definition rank_at (s : dict F) (p : string) : F :=
  match dget p s with
  | Some r => r
  | None => of_int 0
  end.

(** The weight with which the transition model, at page [p], picks page
    [i]. *)
Definition chain_weight (corpus : Corpus) (d : F) (p i : string) : F :=
  match transition_model corpus p d with
  | Ok t => rank_at t i
  | Raise _ => of_int 0
  end.

Definition is_sink (corpus : Corpus) (p : string) : bool :=
  match dget p corpus with
  | Some [] => true
  | _ => false
  end.



(** What page [p] adds to the incoming sum of page [i]. *)
Definition inflow (corpus : Corpus) (s : dict F) (i p : string) : F :=
  match dget p corpus with
  | Some links =>
      if contains i links then fquot (rank_at s p) (of_int (len links))
      else of_int 0
  | None => of_int 0
  end.

End Chain.

(** What the first loop of [crawl] leaves in every entry: a duplicate-free
    out-set without the page itself. *)
Definition tidy_entry (kv : string * list string) : Prop :=
  NoDup (snd kv) /\ ~ In (fst kv) (snd kv).

(** A corpus as [crawl] never returns it: the out-set of "a.html" holds a link
    to a page that is not there. *)
Definition dangling_corpus : Corpus :=
  [("a.html", ["b.html"; "x.html"]); ("b.html", [])].

(** * Properties *)

(** ** Dictionaries and loops *)

Lemma dget_dset_same {V : Type} (k : string) (v : V) (d : dict V) :
  dget k (dset k v d) = Some v.
Proof.
  induction d as [|[k' v'] t IH]; simpl.
  - now rewrite String.eqb_refl.
  - destruct (String.eqb k k') eqn:E; simpl; rewrite ?E, ?String.eqb_refl; auto.
Qed.

Lemma dget_dset_other {V : Type} (k k' : string) (v : V) (d : dict V) :
  k <> k' -> dget k' (dset k v d) = dget k' d.
Proof.
  intros Hne. induction d as [|[k0 v0] t IH]; simpl.
  - destruct (String.eqb_spec k' k); congruence.
  - destruct (String.eqb_spec k k0) as [->|Hk]; simpl.
    + destruct (String.eqb_spec k' k0); congruence.
    + now rewrite IH.
Qed.

Lemma dget_in_keys {V : Type} (k : string) (d : dict V) :
  In k (keys d) <-> exists v, dget k d = Some v.
Proof.
  induction d as [|[k0 v0] t IH]; simpl.
  - split; [tauto | intros [v Hv]; discriminate].
  - destruct (String.eqb_spec k k0) as [->|Hk].
    + split; eauto.
    + rewrite <- IH. split; [intros [C|C]; congruence || auto | auto].
Qed.

Lemma keys_dset_in {V : Type} (k : string) (v : V) (d : dict V) :
  In k (keys d) -> keys (dset k v d) = keys d.
Proof.
  induction d as [|[k0 v0] t IH]; simpl; [tauto|].
  intros Hin. destruct (String.eqb_spec k k0) as [->|Hk]; simpl; auto.
  f_equal. apply IH. destruct Hin; congruence.
Qed.

Lemma dset_fresh {V : Type} (k : string) (v : V) (d : dict V) :
  ~ In k (keys d) -> dset k v d = d ++ [(k, v)].
Proof.
  induction d as [|[k0 v0] t IH]; simpl; auto.
  intros Hn. destruct (String.eqb_spec k k0) as [->|Hk]; [tauto|].
  f_equal. apply IH. tauto.
Qed.

Lemma item_ok {V : Type} (k : string) (d : dict V) :
  In k (keys d) -> exists v, item k d = Ok v /\ dget k d = Some v.
Proof.
  intros Hin. apply dget_in_keys in Hin as [v Hv].
  exists v. unfold item. now rewrite Hv.
Qed.

Lemma item_inv {V : Type} (k : string) (d : dict V) (v : V) :
  item k d = Ok v -> dget k d = Some v.
Proof.
  unfold item. destruct (dget k d); congruence.
Qed.

Lemma dget_in {V : Type} (k : string) (d : dict V) (v : V) :
  dget k d = Some v -> In (k, v) d.
Proof.
  induction d as [|[k0 v0] t IH]; simpl; [discriminate|].
  destruct (String.eqb_spec k k0) as [->|Hk].
  - intros [= ->]. now left.
  - auto.
Qed.

Lemma len_zero_iff {A : Type} (l : list A) : len l = 0 <-> l = [].
Proof.
  unfold len. destruct l; simpl; split; try congruence; lia.
Qed.

Lemma len_cons {A : Type} (a : A) (l : list A) : len (a :: l) = len l + 1.
Proof. unfold len. simpl List.length. lia. Qed.

Lemma len_filter_all {A : Type} (f : A -> bool) (l : list A) :
  len (filter f l) = len l <-> forall x, In x l -> f x = true.
Proof.
  induction l as [|a l IH]; simpl.
  - split; [intros _ x [] | reflexivity].
  - assert (Hle : len (filter f l) <= len l).
    { unfold len. pose proof (filter_length_le f l). lia. }
    destruct (f a) eqn:Ea; rewrite !len_cons.
    + split.
      * intros E x [<-|Hx]; auto. apply IH; [lia | exact Hx].
      * intros Hall. f_equal. apply IH. auto.
    + split.
      * intros E. lia.
      * intros Hall. rewrite (Hall a) in Ea by now left. discriminate.
Qed.

Lemma contains_In (i : string) (s : list string) :
  contains i s = true <-> In i s.
Proof.
  unfold contains. rewrite existsb_exists. split.
  - intros [x [Hx E]]. apply String.eqb_eq in E. now subst.
  - intros Hin. exists i. split; auto. apply String.eqb_refl.
Qed.

Lemma for_each_app {A S : Type} (body : S -> A -> res S) (l1 l2 : list A) (s : S) :
  for_each body (l1 ++ l2) s = (s' <- for_each body l1 s ;; for_each body l2 s').
Proof.
  revert s. induction l1 as [|a l1 IH]; intros s; simpl; auto.
  destruct (body s a); simpl; auto.
Qed.

(** A loop whose body never raises is a left fold. *)
Lemma for_each_pure {A S : Type} (body : S -> A -> res S) (f : S -> A -> S)
    (l : list A) (s : S) :
  (forall s a, In a l -> body s a = Ok (f s a)) ->
  for_each body l s = Ok (fold_left f l s).
Proof.
  revert s. induction l as [|a l IH]; intros s Hb; simpl; auto.
  rewrite Hb by now left. simpl. apply IH. intros; apply Hb; now right.
Qed.

(** Filling a dictionary key by key, over distinct keys, lists the keys in
    order. *)
Lemma fill_dict {V : Type} (f : string -> V) (ks : list string) (d : dict V) :
  NoDup (keys d ++ ks) ->
  fold_left (fun r k => dset k (f k) r) ks d = d ++ map (fun k => (k, f k)) ks.
Proof.
  revert d. induction ks as [|k ks IH]; intros d Hnd; simpl.
  - now rewrite app_nil_r.
  - assert (Hk : ~ In k (keys d)).
    { apply NoDup_remove_2 in Hnd. intros C. apply Hnd. apply in_or_app. now left. }
    rewrite dset_fresh by exact Hk. rewrite IH.
    + now rewrite <- app_assoc.
    + unfold keys in *. rewrite map_app. simpl. now rewrite <- app_assoc.
Qed.

Lemma keys_map_pair {V : Type} (f : string -> V) (ks : list string) :
  keys (map (fun k => (k, f k)) ks) = ks.
Proof.
  unfold keys. rewrite map_map. simpl. apply map_id.
Qed.

Lemma values_map_pair {V : Type} (f : string -> V) (ks : list string) :
  values (map (fun k => (k, f k)) ks) = map f ks.
Proof.
  unfold values. now rewrite map_map.
Qed.

(** ** The transition model in closed form *)

Section TransitionModel.

Context {F : Type} `{PyFloat F}.

Lemma div_int_nonzero (x : F) (n : Z) :
  n <> 0 -> div_int x n = Ok (fquot x (of_int n)).
Proof.
  intros Hn. unfold div_int. destruct (Z.eqb_spec n 0); [contradiction|].
  reflexivity.
Qed.

Lemma links_loop (d : F) (p : string) (n : Z) (l : list string) (x : F) :
  (l <> [] -> n <> 0) ->
  for_each (fun initual i =>
      if String.eqb p i then
        q <- div_int d n ;; Ok (fadd initual q)
      else Ok initual) l x
  = Ok (Nat.iter (count_occ string_dec l p)
                 (fun y => fadd y (fquot d (of_int n))) x).
Proof.
  intros Hn. destruct l as [|i0 l0] eqn:El; [reflexivity|]. rewrite <- El.
  assert (Hn0 : n <> 0) by (apply Hn; discriminate). clear El Hn.
  rewrite for_each_pure
    with (f := fun y i => if String.eqb p i then fadd y (fquot d (of_int n)) else y).
  - f_equal. revert x. induction l as [|i l IH]; intros x; simpl; auto.
    rewrite IH. destruct (String.eqb_spec p i) as [->|Hpi].
    + destruct (string_dec i i); [|congruence]. now rewrite Nat.iter_succ_r.
    + destruct (string_dec i p); [congruence|]. reflexivity.
  - intros y i _. destruct (String.eqb p i); auto.
    now rewrite div_int_nonzero.
Qed.

Lemma transition_body (corpus : Corpus) (page : string) (links : list string)
    (d : F) (result : dict F) (p : string) :
  corpus <> [] ->
  dget page corpus = Some links ->
  (initual <- div_int (fsub (of_int 1) d) (len corpus) ;;
   links <- item page corpus ;;
   initual <- for_each (fun initual i =>
       if String.eqb p i then
         q <- div_int d (len links) ;; Ok (fadd initual q)
       else Ok initual) links initual ;;
   initual <- (if len links =? 0 then
                 q <- div_int d (len corpus) ;; Ok (fadd initual q)
               else Ok initual) ;;
   Ok (dset p initual result))
  = Ok (dset p (weight corpus links d p) result).
Proof.
  intros Hne Hget.
  assert (HN : len corpus <> 0) by (rewrite len_zero_iff; exact Hne).
  rewrite !(div_int_nonzero _ (len corpus)) by exact HN.
  simpl. unfold item. rewrite Hget. simpl.
  rewrite links_loop by (rewrite len_zero_iff; auto). simpl.
  unfold weight, follow, teleport.
  destruct (Z.eqb_spec (len links) 0); simpl; auto.
Qed.

Lemma transition_model_fold (corpus : Corpus) (page : string)
    (links : list string) (d : F) :
  corpus <> [] ->
  dget page corpus = Some links ->
  transition_model corpus page d
  = Ok (fold_left (fun r p => dset p (weight corpus links d p) r)
                  (keys corpus) []).
Proof.
  intros Hne Hget. unfold transition_model.
  apply for_each_pure with (f := fun r p => dset p (weight corpus links d p) r).
  intros r p _. now apply transition_body.
Qed.

Lemma transition_model_map (corpus : Corpus) (page : string)
    (links : list string) (d : F) :
  NoDup (keys corpus) ->
  dget page corpus = Some links ->
  transition_model corpus page d
  = Ok (map (fun p => (p, weight corpus links d p)) (keys corpus)).
Proof.
  intros Hnd Hget.
  assert (Hne : corpus <> []) by (destruct corpus; [discriminate | congruence]).
  rewrite (transition_model_fold corpus page links d Hne Hget).
  now rewrite fill_dict.
Qed.

(** With a duplicate-free out-set the weight is the three-case formula. *)
Lemma weight_cases (corpus : Corpus) (links : list string) (d : F) (p : string) :
  NoDup links ->
  weight corpus links d p =
    match links with
    | [] => fadd (teleport corpus d) (fquot d (of_int (len corpus)))
    | _ => if contains p links
           then fadd (teleport corpus d) (fquot d (of_int (len links)))
           else teleport corpus d
    end.
Proof.
  intros Hnd. unfold weight, follow.
  destruct links as [|l0 links']; [reflexivity|].
  set (links := l0 :: links') in *.
  destruct (Z.eqb_spec (len links) 0) as [E|_].
  { apply len_zero_iff in E. discriminate. }
  destruct (contains p links) eqn:Hc.
  - apply contains_In in Hc.
    apply (NoDup_count_occ' string_dec) in Hc; [|exact Hnd].
    now rewrite Hc.
  - assert (Hn : ~ In p links).
    { intros C. apply contains_In in C. congruence. }
    apply (count_occ_not_In string_dec) in Hn. now rewrite Hn.
Qed.

End TransitionModel.

(** ** Exact arithmetic: sums over [Qc] *)

Section Exact.

#[local] Open Scope Qc_scope.

Lemma of_int_Qc_0 : of_int (F := Qc) 0%Z = 0.
Proof. apply Qc_is_canon. reflexivity. Qed.

Lemma of_int_Qc_1 : of_int (F := Qc) 1%Z = 1.
Proof. apply Qc_is_canon. reflexivity. Qed.

Lemma of_int_Qc_add (a b : Z) :
  of_int (F := Qc) (a + b)%Z = of_int a + of_int b.
Proof.
  change (Q2Qc (inject_Z (a + b)) = Q2Qc (inject_Z a) + Q2Qc (inject_Z b)).
  unfold Qcplus. apply Q2Qc_eq_iff. cbn [this Q2Qc].
  rewrite !Qred_correct. rewrite inject_Z_plus. reflexivity.
Qed.

Lemma of_int_Qc_nonzero (a : Z) : a <> 0%Z -> of_int (F := Qc) a <> 0.
Proof.
  intros Ha C. change (Q2Qc (inject_Z a) = Q2Qc 0) in C.
  apply Q2Qc_eq_iff in C. unfold Qeq in C. simpl in C. lia.
Qed.

Lemma fold_left_Qcplus (xs : list Qc) (a : Qc) :
  fold_left Qcplus xs a = a + Qsum xs.
Proof.
  revert a. induction xs as [|x xs IH]; intros a; simpl.
  - ring.
  - rewrite IH. ring.
Qed.

Lemma py_sum_Qc (xs : list Qc) : py_sum xs = Qsum xs.
Proof.
  unfold py_sum. rewrite fold_left_Qcplus.
  change (@fadd Qc PyFloat_Qc) with Qcplus.
  rewrite of_int_Qc_0. ring.
Qed.

(** The sum of a two-valued weight: [a] on every key, [b] more on the keys
    that pass [t]. *)
Lemma Qsum_two_valued (t : string -> bool) (a b : Qc) (ks : list string) :
  Qsum (map (fun p => if t p then a + b else a) ks)
  = of_int (len ks) * a + of_int (len (filter t ks)) * b.
Proof.
  induction ks as [|k ks IH]; cbn [map Qsum fold_right filter].
  - change (len (@nil string)) with 0%Z. rewrite of_int_Qc_0. ring.
  - fold (Qsum (map (fun p => if t p then a + b else a) ks)). rewrite IH.
    destruct (t k); rewrite !len_cons, !of_int_Qc_add, !of_int_Qc_1; ring.
Qed.

Lemma Qsum_const (c : Qc) (ks : list string) :
  Qsum (map (fun _ => c) ks) = of_int (len ks) * c.
Proof.
  induction ks as [|k ks IH]; cbn [map Qsum fold_right].
  - change (len (@nil string)) with 0%Z. rewrite of_int_Qc_0. ring.
  - fold (Qsum (map (fun _ => c) ks)). rewrite IH.
    rewrite len_cons, of_int_Qc_add, of_int_Qc_1. ring.
Qed.

End Exact.

Ltac qc_ops :=
  change (@fadd Qc PyFloat_Qc) with Qcplus in *;
  change (@fsub Qc PyFloat_Qc) with Qcminus in *;
  change (@fmul Qc PyFloat_Qc) with Qcmult in *;
  change (@fquot Qc PyFloat_Qc) with Qcdiv in *.

(** ** The order of the exact rationals *)

Section ExactOrder.

#[local] Open Scope Qc_scope.

Lemma this_Qcdiv (x y : Qc) : (this (x / y) == this x / this y)%Q.
Proof.
  unfold Qcdiv, Qcmult, Qcinv. cbn [this Q2Qc].
  now rewrite !Qred_correct.
Qed.

Lemma of_int_Qc_le (a b : Z) : (a <= b)%Z -> of_int (F := Qc) a <= of_int b.
Proof.
  intros Hab. unfold Qcle. cbn [of_int PyFloat_Qc this Q2Qc].
  rewrite !Qred_correct. now rewrite <- Zle_Qle.
Qed.

Lemma of_int_Qc_lt (a b : Z) : (a < b)%Z -> of_int (F := Qc) a < of_int b.
Proof.
  intros Hab. unfold Qclt. cbn [of_int PyFloat_Qc this Q2Qc].
  rewrite !Qred_correct. now rewrite <- Zlt_Qlt.
Qed.

Lemma of_int_Qc_opp (a : Z) : of_int (F := Qc) (- a) = - of_int a.
Proof.
  change (Q2Qc (inject_Z (- a)) = - Q2Qc (inject_Z a)).
  unfold Qcopp. apply Q2Qc_eq_iff. cbn [this Q2Qc].
  rewrite Qred_correct, inject_Z_opp. reflexivity.
Qed.

Lemma Qc_div_nonneg (x y : Qc) : 0 <= x -> 0 < y -> 0 <= x / y.
Proof.
  unfold Qcle, Qclt. intros Hx Hy. rewrite this_Qcdiv.
  apply Qle_shift_div_l; [exact Hy|]. now rewrite Qmult_0_l.
Qed.

Lemma Qc_div_pos (x y : Qc) : 0 < x -> 0 < y -> 0 < x / y.
Proof.
  unfold Qclt. intros Hx Hy. rewrite this_Qcdiv.
  apply Qlt_shift_div_l; [exact Hy|]. now rewrite Qmult_0_l.
Qed.

Lemma Qc_div_le (x y z : Qc) : 0 < y -> x <= z * y -> x / y <= z.
Proof.
  unfold Qcle, Qclt. intros Hy Hx. rewrite this_Qcdiv.
  apply Qle_shift_div_r; [exact Hy|].
  unfold Qcmult in Hx. cbn [this Q2Qc] in Hx. now rewrite Qred_correct in Hx.
Qed.

(** A share of a non-negative quantity among [n >= 1] is between 0 and the
    quantity. *)
Lemma Qc_share (x : Qc) (n : Z) :
  0 <= x -> (1 <= n)%Z -> 0 <= x / of_int n /\ x / of_int n <= x.
Proof.
  intros Hx Hn.
  assert (H1 : 1 <= of_int (F := Qc) n).
  { rewrite <- of_int_Qc_1. now apply of_int_Qc_le. }
  assert (Hpos : 0 < of_int (F := Qc) n).
  { rewrite <- of_int_Qc_0. apply of_int_Qc_lt. lia. }
  split; [now apply Qc_div_nonneg|].
  apply Qc_div_le; [exact Hpos|].
  rewrite <- (Qcmult_1_l x) at 1. rewrite (Qcmult_comm x (of_int n)).
  now apply Qcmult_le_compat_r.
Qed.

Lemma Qc_add_nonneg (x y : Qc) : 0 <= x -> 0 <= y -> 0 <= x + y.
Proof.
  intros Hx Hy. rewrite <- (Qcplus_0_l 0). now apply Qcplus_le_compat.
Qed.

Lemma Qc_add_pos (x y : Qc) : 0 < x -> 0 <= y -> 0 < x + y.
Proof.
  intros Hx Hy. apply Qclt_le_trans with (y := x); [exact Hx|].
  rewrite <- (Qcplus_0_r x) at 1. apply Qcplus_le_compat; [apply Qcle_refl | exact Hy].
Qed.

Lemma Qc_mul_nonneg (x y : Qc) : 0 <= x -> 0 <= y -> 0 <= x * y.
Proof.
  intros Hx Hy. rewrite <- (Qcmult_0_l y). now apply Qcmult_le_compat_r.
Qed.

End ExactOrder.

(** ** The checks of [random.choices] *)

Section Choices.

Context {F : Type} `{PyFloat F}.

Lemma len_accumulate (ws : list F) : len (accumulate ws) = len ws.
Proof.
  assert (Hfrom : forall (l : list F) t,
             List.length (accumulate_from t l) = List.length l).
  { induction l as [|w l IH]; intros t; simpl; auto. }
  unfold len. destruct ws as [|w ws]; simpl; auto. now rewrite Hfrom.
Qed.

(** On a non-empty population the checks raise nothing but ValueError. *)
Lemma choices_total_raises (l : list string) (ws : list F) (e : exn) :
  l <> [] -> choices_total l ws = Raise e -> e = ValueError.
Proof.
  intros Hl. unfold choices_total.
  destruct (len (accumulate ws) =? len l) eqn:E; cbn [negb];
    [|intros [= <-]; reflexivity].
  destruct (accumulate ws) as [|c cum].
  { apply Z.eqb_eq in E. symmetry in E. apply len_zero_iff in E. contradiction. }
  cbn [last_item bind].
  destruct (fle (fadd (last cum c) (of_int 0)) (of_int 0));
    [intros [= <-]; reflexivity|].
  destruct (is_finite (fadd (last cum c) (of_int 0))); cbn [negb];
    [discriminate | intros [= <-]; reflexivity].
Qed.

(** The checks pass on a non-empty population only. *)
Lemma choices_total_population (l : list string) (ws : list F) (total : F) :
  choices_total l ws = Ok total -> l <> [].
Proof.
  unfold choices_total. intros Hok ->.
  destruct (len (accumulate ws) =? len (@nil string)) eqn:E; cbn [negb] in Hok;
    [|discriminate].
  apply Z.eqb_eq in E. change (len (@nil string)) with 0 in E.
  apply len_zero_iff in E. rewrite E in Hok. discriminate.
Qed.

(** The weights the sampling estimator passes at a page with out-set
    [links]. *)
Lemma accepted_at_weights (corpus : Corpus) (d : F) (page : string)
    (links : list string) :
  NoDup (keys corpus) ->
  dget page corpus = Some links ->
  accepted_at corpus d page
  = match choices_total (keys corpus)
                        (map (weight corpus links d) (keys corpus)) with
    | Ok _ => true
    | Raise _ => false
    end.
Proof.
  intros Hnd Hget. unfold accepted_at.
  rewrite (transition_model_map corpus page links d Hnd Hget).
  now rewrite keys_map_pair, values_map_pair.
Qed.

End Choices.

Section ExactChoices.

#[local] Open Scope Qc_scope.

Lemma Qsum_of_positive (ws : list Qc) :
  ws <> [] -> (forall w, In w ws -> 0 < w) -> 0 < Qsum ws.
Proof.
  induction ws as [|w ws IH]; [congruence|]. intros _ Hall.
  cbn [Qsum fold_right]. fold (Qsum ws).
  apply Qc_add_pos; [apply Hall; now left|].
  destruct ws as [|w' ws']; [apply Qcle_refl|].
  apply Qclt_le_weak, IH; [discriminate|]. intros x Hx. apply Hall. now right.
Qed.

Lemma last_cons {A : Type} (l : list A) (a d : A) :
  last (a :: l) d = last l a.
Proof.
  revert a d. induction l as [|b l IH]; intros a d; [reflexivity|].
  change (last (a :: b :: l) d) with (last (b :: l) d).
  now rewrite (IH b d), (IH b a).
Qed.

Lemma last_accumulate_from (ws : list Qc) (t : Qc) :
  last (accumulate_from t ws) t = t + Qsum ws.
Proof.
  revert t. induction ws as [|w ws IH]; intros t.
  - cbn [accumulate_from last Qsum fold_right]. ring.
  - cbn [accumulate_from Qsum fold_right]. fold (Qsum ws).
    rewrite last_cons, IH. qc_ops. ring.
Qed.

(** In exact arithmetic the checks pass exactly on a positive total. *)
Lemma choices_total_exact (l : list string) (ws : list Qc) :
  len ws = len l ->
  0 < Qsum ws ->
  exists total, choices_total l ws = Ok total.
Proof.
  intros Hlen Hpos. unfold choices_total.
  rewrite len_accumulate, Hlen, Z.eqb_refl. cbn [negb].
  destruct ws as [|w ws].
  { exfalso. cbn [Qsum fold_right] in Hpos.
    apply (Qclt_not_le _ _ Hpos). apply Qcle_refl. }
  cbn [accumulate last_item bind]. rewrite last_accumulate_from.
  cbn [is_finite PyFloat_Qc negb].
  destruct (fle (fadd (w + Qsum ws) (of_int 0)) (of_int 0)) eqn:Hle; [|eauto].
  exfalso. cbn [fle PyFloat_Qc] in Hle. apply Qle_bool_iff in Hle.
  qc_ops. rewrite of_int_Qc_0, Qcplus_0_r in Hle.
  cbn [Qsum fold_right] in Hpos. fold (Qsum ws) in Hpos.
  apply (Qclt_not_le _ _ Hpos). exact Hle.
Qed.

(** For a damping factor in [0, 1) every weight of the transition model is
    positive, whatever the out-set. *)
Lemma weight_positive (corpus : Corpus) (links : list string) (d : Qc)
    (p : string) :
  corpus <> [] -> 0 <= d -> d < 1 -> 0 < weight corpus links d p.
Proof.
  intros Hne Hd0 Hd1.
  assert (HN : 0 < of_int (F := Qc) (len corpus)).
  { rewrite <- of_int_Qc_0. apply of_int_Qc_lt.
    assert (len corpus <> 0%Z) by (rewrite len_zero_iff; exact Hne).
    unfold len in *. lia. }
  assert (Ht : 0 < teleport corpus d).
  { unfold teleport. qc_ops. rewrite of_int_Qc_1. apply Qc_div_pos; [|exact HN].
    unfold Qcminus. now apply Qclt_minus_iff in Hd1. }
  assert (Hiter : forall (k : nat) (q x : Qc), 0 <= q -> 0 < x ->
            0 < Nat.iter k (fun y => fadd y q) x).
  { induction k as [|k IH]; intros q x Hq Hx; cbn [Nat.iter nat_rect]; [exact Hx|].
    qc_ops. rewrite Qcplus_comm.
    apply Qclt_le_trans with (y := Nat.iter k (fun y => y + q) x + 0).
    - rewrite Qcplus_0_r. now apply IH.
    - rewrite (Qcplus_comm q). apply Qcplus_le_compat; [apply Qcle_refl | exact Hq]. }
  unfold weight, follow.
  destruct links as [|l0 links'].
  - cbn [count_occ Nat.iter nat_rect]. change (len (@nil string) =? 0)%Z with true.
    cbv iota. qc_ops. apply Qc_add_pos; [exact Ht|].
    now apply Qc_div_nonneg.
  - set (links := l0 :: links').
    assert (HL : 0 < of_int (F := Qc) (len links)).
    { rewrite <- of_int_Qc_0. apply of_int_Qc_lt. unfold links. rewrite len_cons.
      unfold len. lia. }
    destruct (Z.eqb_spec (len links) 0) as [E|_].
    { apply len_zero_iff in E. discriminate. }
    apply Hiter; [|exact Ht]. qc_ops. now apply Qc_div_nonneg.
Qed.

(** So [random.choices] accepts the weights at every page. *)
Lemma weights_accepted_exact (corpus : Corpus) (d : Qc) :
  NoDup (keys corpus) -> 0 <= d -> d < 1 ->
  weights_accepted corpus d = true.
Proof.
  intros Hnd Hd0 Hd1. unfold weights_accepted. apply forallb_forall.
  intros page Hpage.
  assert (Hne : corpus <> []) by (intros ->; inversion Hpage).
  apply dget_in_keys in Hpage as [links Hget].
  rewrite (accepted_at_weights corpus d page links Hnd Hget).
  destruct (choices_total_exact (keys corpus)
              (map (weight corpus links d) (keys corpus))) as [total Ht].
  - unfold len. now rewrite length_map.
  - apply Qsum_of_positive.
    + destruct corpus; [congruence | discriminate].
    + intros w Hw. apply in_map_iff in Hw as (p & <- & _).
      now apply weight_positive.
  - now rewrite Ht.
Qed.

End ExactChoices.

(** The pages of a closed, duplicate-free out-set are counted once each among
    the keys. *)
Lemma links_among_keys (ks links : list string) :
  NoDup ks -> NoDup links -> incl links ks ->
  len (filter (fun p => contains p links) ks) = len links.
Proof.
  intros Hk Hl Hincl. unfold len. f_equal.
  apply Permutation_length. apply NoDup_Permutation; auto.
  - now apply NoDup_filter.
  - intros x. rewrite filter_In, contains_In. split; [tauto|].
    intros Hx. split; auto.
Qed.

(** ** The transition model *)

(** C10.  On a non-empty corpus and a current page that is one of its keys,
    the transition model returns a dictionary for every damping factor: no
    division raises ZeroDivisionError (the divisor [len(corpus[page])] is
    reached only from inside the loop over a non-empty out-set, [len(corpus)]
    only from inside the loop over a non-empty corpus) and no lookup raises
    KeyError.  Nothing is assumed of the out-sets. *)
Theorem transition_model_total :
  forall (F : Type) (HF : PyFloat F) (corpus : Corpus) (page : string) (d : F),
    corpus <> [] ->
    In page (keys corpus) ->
    exists r, transition_model corpus page d = Ok r.
Proof.
  intros F HF corpus page d Hne Hin.
  apply dget_in_keys in Hin as [links Hget].
  eexists. now apply transition_model_fold with (links := links).
Qed.

Lemma wf_links (corpus : Corpus) (page : string) (links : list string) :
  wf_corpus corpus -> dget page corpus = Some links ->
  NoDup links /\ incl links (keys corpus).
Proof.
  intros [_ Hall] Hget. apply dget_in in Hget.
  rewrite Forall_forall in Hall. apply (Hall _ Hget).
Qed.

(** C4 (amended).  On a well-formed corpus, for a current page with out-set
    [links], in every arithmetic: the result has exactly the keys of the
    corpus, in order; every page gets (1-d)/N; a page of a non-empty out-set
    gets d/|links| more; every page gets d/N more when the out-set is empty.
    In exact arithmetic these weights sum to 1, for every damping factor. *)
Theorem transition_model_distribution :
  forall (corpus : Corpus) (page : string) (links : list string),
    wf_corpus corpus ->
    dget page corpus = Some links ->
    (forall (F : Type) (HF : PyFloat F) (d : F),
        transition_model corpus page d =
        Ok (map (fun p =>
                   (p, match links with
                       | [] => fadd (fquot (fsub (of_int 1) d) (of_int (len corpus)))
                                    (fquot d (of_int (len corpus)))
                       | _ => if contains p links
                              then fadd (fquot (fsub (of_int 1) d) (of_int (len corpus)))
                                        (fquot d (of_int (len links)))
                              else fquot (fsub (of_int 1) d) (of_int (len corpus))
                       end))
                (keys corpus)))
    /\ (forall d : Qc,
           exists r, transition_model corpus page d = Ok r /\
                     keys r = keys corpus /\
                     py_sum (values r) = 1%Qc).
Proof.
  intros corpus page links Hwf Hget.
  destruct (wf_links _ _ _ Hwf Hget) as [Hnd Hincl].
  destruct Hwf as [Hkeys _].
  assert (Hshape : forall (F : Type) (HF : PyFloat F) (d : F),
             transition_model corpus page d =
             Ok (map (fun p =>
                   (p, match links with
                       | [] => fadd (fquot (fsub (of_int 1) d) (of_int (len corpus)))
                                    (fquot d (of_int (len corpus)))
                       | _ => if contains p links
                              then fadd (fquot (fsub (of_int 1) d) (of_int (len corpus)))
                                        (fquot d (of_int (len links)))
                              else fquot (fsub (of_int 1) d) (of_int (len corpus))
                       end))
                (keys corpus))).
  { intros F HF d. rewrite (transition_model_map corpus page links d Hkeys Hget).
    f_equal. apply map_ext. intros p. f_equal.
    rewrite weight_cases by exact Hnd. reflexivity. }
  split; [exact Hshape|].
  intros d. eexists. split; [apply Hshape|]. split; [apply keys_map_pair|].
  rewrite values_map_pair, py_sum_Qc.
  assert (HN : of_int (F := Qc) (len corpus) <> 0%Qc).
  { apply of_int_Qc_nonzero. rewrite len_zero_iff.
    destruct corpus; [discriminate | congruence]. }
  destruct links as [|l0 links'].
  - qc_ops. rewrite Qsum_const. rewrite of_int_Qc_1.
    replace (len (keys corpus)) with (len corpus)
      by (unfold len, keys; now rewrite length_map).
    field. exact HN.
  - set (links := l0 :: links') in *. qc_ops.
    rewrite (Qsum_two_valued (fun p => contains p links)).
    rewrite links_among_keys by assumption.
    assert (HL : of_int (F := Qc) (len links) <> 0%Qc).
    { apply of_int_Qc_nonzero. rewrite len_zero_iff. discriminate. }
    rewrite of_int_Qc_1.
    replace (len (keys corpus)) with (len corpus)
      by (unfold len, keys; now rewrite length_map).
    field. split; assumption.
Qed.

(** ** The sampling estimator *)

Lemma init_counters (ks : list string) :
  NoDup ks ->
  fold_left (fun r i => dset i 0 r) ks ([] : dict Z) = map (fun k => (k, 0)) ks.
Proof.
  intros Hnd. now rewrite (fill_dict (fun _ => 0)).
Qed.

Lemma Zsum_zero (ks : list string) :
  Zsum (values (map (fun k => (k, 0)) ks)) = 0.
Proof.
  induction ks; simpl; auto.
Qed.

(** [result[k] += 1] adds one to the total and touches no other counter. *)
Lemma increment_counter (k : string) (c : Z) (d : dict Z) :
  dget k d = Some c ->
  Zsum (values (dset k (c + 1) d)) = Zsum (values d) + 1 /\
  keys (dset k (c + 1) d) = keys d /\
  (Forall (fun x => 0 <= x) (values d) ->
   Forall (fun x => 0 <= x) (values (dset k (c + 1) d))).
Proof.
  induction d as [|[k0 v0] t IH]; simpl; [discriminate|].
  destruct (String.eqb_spec k k0) as [->|Hk].
  - intros [= ->]. simpl. repeat split; [lia|].
    intros Hall. inversion Hall; subst. constructor; auto. lia.
  - intros Hget. destruct (IH Hget) as (Hs & Hkeys & Hpos). simpl.
    repeat split; [lia | congruence |].
    intros Hall. inversion Hall; subst. constructor; auto.
Qed.

Section Sampling.

Context {F : Type} `{PyFloat F}.
Variable R : Random F.
Hypothesis R_sound : random_sound R.
Variable corpus : Corpus.
Hypothesis corpus_keys : NoDup (keys corpus).
Variable damping_factor : F.

(** One iteration of the walk: either [random.choices] accepts the weights at
    the current page, one counter is incremented and the next page is a page
    of the corpus, or it refuses them and the iteration raises ValueError. *)
Lemma sample_step_cases (total : Z) (st : dict Z * string * rng R) (j : nat) :
  walk_inv R corpus total st ->
  (accepted_at corpus damping_factor (snd (fst st)) = true /\
   exists st', sample_step R corpus damping_factor st j = Ok st' /\
               walk_inv R corpus (total + 1) st')
  \/ (accepted_at corpus damping_factor (snd (fst st)) = false /\
      sample_step R corpus damping_factor st j = Raise ValueError).
Proof.
  destruct st as [[result currentPage] g].
  intros (Hkeys & Hcur & Hpos & Hsum). cbn [fst snd]. unfold sample_step.
  assert (Hin : In currentPage (keys result)) by now rewrite Hkeys.
  destruct (item_ok _ _ Hin) as (c & Hitem & Hget). rewrite Hitem. cbn [bind].
  destruct (proj1 (dget_in_keys currentPage corpus) Hcur) as [links Hlinks].
  rewrite (accepted_at_weights corpus damping_factor currentPage links
             corpus_keys Hlinks).
  rewrite (transition_model_map corpus currentPage links damping_factor
             corpus_keys Hlinks). cbn [bind].
  rewrite keys_map_pair, values_map_pair. unfold py_choices.
  assert (Hne : keys corpus <> []) by (intros C; rewrite C in Hcur; inversion Hcur).
  destruct (choices_total (keys corpus)
              (map (weight corpus links damping_factor) (keys corpus)))
    as [t|e] eqn:Ht; cbn [bind].
  - left. split; [reflexivity|].
    pose proof (proj2 R_sound _ _ g _ Ht) as Hm.
    destruct (random_choices R (keys corpus) _ g) as [next g'].
    eexists. split; [reflexivity|].
    destruct (increment_counter _ _ _ Hget) as (Hs & Hk & Hp).
    repeat split; [congruence | exact Hm | auto | lia].
  - right. split; [reflexivity|]. f_equal.
    now apply (choices_total_raises _ _ _ Hne Ht).
Qed.

Lemma sample_loop_cases (js : list nat) (total : Z)
    (st : dict Z * string * rng R) :
  walk_inv R corpus total st ->
  (exists st', for_each (sample_step R corpus damping_factor) js st = Ok st' /\
               walk_inv R corpus (total + len js) st')
  \/ (for_each (sample_step R corpus damping_factor) js st = Raise ValueError /\
      js <> [] /\
      exists p, In p (keys corpus) /\ accepted_at corpus damping_factor p = false).
Proof.
  revert total st. induction js as [|j js IH]; intros total st Hinv.
  - left. exists st. split; [reflexivity|]. change (len (@nil nat)) with 0.
    now rewrite Z.add_0_r.
  - cbn [for_each].
    destruct (sample_step_cases total st j Hinv)
      as [(_ & st1 & Hstep & Hinv1) | (Hrefused & Hstep)]; rewrite Hstep; cbn [bind].
    + destruct (IH _ _ Hinv1) as [(st2 & Hloop & Hinv2) | (Hloop & _ & Hp)].
      * left. exists st2. split; [exact Hloop|]. rewrite len_cons.
        now replace (total + (len js + 1)) with (total + 1 + len js) by lia.
      * right. split; [exact Hloop|]. split; [discriminate | exact Hp].
    + right. split; [reflexivity|]. split; [discriminate|].
      exists (snd (fst st)). split; [|exact Hrefused].
      destruct st as [[result currentPage] g]. apply Hinv.
Qed.

Lemma len_range (n : Z) : len (range n) = Z.max 0 n.
Proof.
  unfold len, range. rewrite length_seq. lia.
Qed.

(** The state in which the walk starts. *)
Lemma sample_walk_start (g : rng R) :
  corpus <> [] ->
  py_choice R (keys corpus) g = Ok (random_choice R (keys corpus) g) /\
  walk_inv R corpus 0
    ((map (fun k => (k, 0)) (keys corpus) : dict Z),
     fst (random_choice R (keys corpus) g), snd (random_choice R (keys corpus) g)).
Proof.
  intros Hne.
  assert (Hk : keys corpus <> []) by (destruct corpus; [congruence | discriminate]).
  split.
  - unfold py_choice. destruct (keys corpus); [congruence | reflexivity].
  - repeat split.
    + apply (keys_map_pair (fun _ => 0)).
    + apply (proj1 R_sound (keys corpus) g Hk).
    + rewrite (values_map_pair (fun _ => 0)). apply Forall_forall.
      intros x Hx. apply in_map_iff in Hx as (? & <- & _). lia.
    + apply Zsum_zero.
Qed.

(** The walk ends with its counters, or raises ValueError at a page whose
    weights [random.choices] refuses. *)
Lemma sample_walk_cases (n : Z) (g : rng R) :
  corpus <> [] ->
  (exists counts,
      sample_walk R corpus damping_factor n g = Ok counts /\
      keys counts = keys corpus /\
      Forall (fun x => 0 <= x) (values counts) /\
      Zsum (values counts) = Z.max 0 n)
  \/ (sample_walk R corpus damping_factor n g = Raise ValueError /\
      0 < n /\
      exists p, In p (keys corpus) /\ accepted_at corpus damping_factor p = false).
Proof.
  intros Hne. unfold sample_walk.
  destruct (sample_walk_start g Hne) as [Hc Hinv].
  rewrite Hc. cbn [bind].
  destruct (random_choice R (keys corpus) g) as [first g1]. cbn [fst snd] in Hinv.
  rewrite init_counters by exact corpus_keys.
  destruct (sample_loop_cases (range n) 0 _ Hinv)
    as [([[counts last] g2] & Hloop & Hinv') | (Hloop & Hjs & Hp)];
    rewrite Hloop; cbn [bind].
  - left. exists counts. split; [reflexivity|].
    destruct Hinv' as (Hkeys & _ & Hpos & Hsum).
    rewrite len_range in Hsum. auto.
  - right. split; [reflexivity|]. split; [|exact Hp].
    unfold range in Hjs. destruct (Z.to_nat n) eqn:E; [now elim Hjs | lia].
Qed.

Lemma sample_walk_counts (n : Z) (g : rng R) :
  corpus <> [] ->
  weights_accepted corpus damping_factor = true ->
  exists counts,
    sample_walk R corpus damping_factor n g = Ok counts /\
    keys counts = keys corpus /\
    Forall (fun x => 0 <= x) (values counts) /\
    Zsum (values counts) = Z.max 0 n.
Proof.
  intros Hne Hacc.
  destruct (sample_walk_cases n g Hne) as [Hok | (_ & _ & p & Hp & Hrefused)];
    [exact Hok|].
  unfold weights_accepted in Hacc.
  rewrite forallb_forall in Hacc. rewrite (Hacc p Hp) in Hrefused. discriminate.
Qed.

(** When the weights are refused at every page, the first iteration raises. *)
Lemma sample_walk_refused (n : Z) (g : rng R) :
  corpus <> [] ->
  0 < n ->
  (forall p, In p (keys corpus) -> accepted_at corpus damping_factor p = false) ->
  sample_walk R corpus damping_factor n g = Raise ValueError.
Proof.
  intros Hne Hn Hall. unfold sample_walk.
  destruct (sample_walk_start g Hne) as [Hc Hinv].
  rewrite Hc. cbn [bind].
  destruct (random_choice R (keys corpus) g) as [first g1]. cbn [fst snd] in Hinv.
  rewrite init_counters by exact corpus_keys.
  unfold range. destruct (Z.to_nat n) as [|k] eqn:E; [lia|].
  cbn [seq for_each].
  destruct (sample_step_cases 0 _ 0%nat Hinv)
    as [(Hacc & _) | (_ & Hstep)].
  - cbn [fst snd] in Hacc. rewrite Hall in Hacc; [discriminate|]. apply Hinv.
  - rewrite Hstep. reflexivity.
Qed.

End Sampling.

Lemma dget_NoDup {V : Type} (k : string) (v : V) (d : dict V) :
  NoDup (keys d) -> In (k, v) d -> dget k d = Some v.
Proof.
  induction d as [|[k0 v0] t IH]; simpl; [tauto|].
  intros Hnd [E|Hin].
  - inversion E; subst. now rewrite String.eqb_refl.
  - inversion Hnd; subst. destruct (String.eqb_spec k k0) as [->|Hk].
    + exfalso. apply H1. change k0 with (fst (k0, v)). now apply in_map.
    + now apply IH.
Qed.

Section Quotients.

Context {F : Type} `{PyFloat F}.

(** Lines 111-112: every counter divided by [n]. *)
Lemma quotients_loop (counts : dict Z) (n : Z) :
  n <> 0 ->
  NoDup (keys counts) ->
  for_each (fun out i =>
      c <- item i counts ;;
      q <- div_int (of_int c) n ;;
      Ok (dset i q out))
    (keys counts) []
  = Ok (map (fun kc => (fst kc, fquot (of_int (snd kc)) (of_int n))) counts).
Proof.
  intros Hn Hnd.
  pose (cnt := fun i => match dget i counts with Some c => c | None => 0 end).
  rewrite for_each_pure
    with (f := fun out i => dset i (fquot (of_int (cnt i)) (of_int n)) out).
  - f_equal. rewrite (fill_dict (fun i => fquot (of_int (cnt i)) (of_int n)))
      by exact Hnd.
    simpl. unfold keys. rewrite map_map. apply map_ext_in.
    intros [k c] Hin. simpl. unfold cnt.
    now rewrite (dget_NoDup k c counts Hnd Hin).
  - intros out i Hin. destruct (item_ok _ _ Hin) as (c & Hitem & Hget).
    rewrite Hitem. simpl. rewrite div_int_nonzero by exact Hn. simpl.
    unfold cnt. now rewrite Hget.
Qed.

(** With [n = 0] the first division raises. *)
Lemma quotients_loop_zero (counts : dict Z) :
  counts <> [] ->
  for_each (fun out i =>
      c <- item i counts ;;
      q <- div_int (of_int c) 0 ;;
      Ok (dset i q out))
    (keys counts) ([] : dict F)
  = Raise ZeroDivisionError.
Proof.
  destruct counts as [|[k c] t]; [congruence|]. intros _. simpl.
  unfold item. simpl. rewrite String.eqb_refl. reflexivity.
Qed.

End Quotients.


(** The shape of the sampling estimator's result, in every arithmetic. *)
Lemma sample_pagerank_shape {F : Type} `{PyFloat F} (R : Random F)
    (corpus : Corpus) (d : F) (n : Z) (g : rng R) :
  random_sound R ->
  corpus <> [] ->
  NoDup (keys corpus) ->
  0 < n ->
  weights_accepted corpus d = true ->
  exists counts : dict Z,
    sample_walk R corpus d n g = Ok counts /\
    keys counts = keys corpus /\
    Forall (fun c => 0 <= c) (values counts) /\
    Zsum (values counts) = n /\
    sample_pagerank R corpus d n g =
    Ok (map (fun kc => (fst kc, fquot (of_int (snd kc)) (of_int n))) counts).
Proof.
  intros HR Hne Hnd Hn Hacc.
  destruct (sample_walk_counts R HR corpus Hnd d n g Hne Hacc)
    as (counts & Hwalk & Hkeys & Hpos & Hsum).
  exists counts. repeat split; auto; [lia|].
  unfold sample_pagerank. rewrite Hwalk. simpl. rewrite <- Hkeys.
  apply quotients_loop; [lia | congruence].
Qed.


(** ** The iterative estimator: one pass *)

Lemma bind_ok {A B : Type} (m : res A) (k : A -> res B) (b : B) :
  bind m k = Ok b -> exists a, m = Ok a /\ k a = Ok b.
Proof.
  destruct m as [a|e]; simpl; [eauto | discriminate].
Qed.

Lemma for_each_ext {A S : Type} (body1 body2 : S -> A -> res S) (l : list A)
    (s : S) :
  (forall s a, In a l -> body1 s a = body2 s a) ->
  for_each body1 l s = for_each body2 l s.
Proof.
  revert s. induction l as [|a l IH]; intros s Hb; simpl; auto.
  rewrite Hb by now left. destruct (body2 s a); simpl; auto.
  apply IH. intros; apply Hb; now right.
Qed.

Section Pass.

Context {F : Type} `{PyFloat F}.
Variable corpus : Corpus.
Variable damping_factor : F.


Lemma new_rank_total (prev : dict F) (i : string) :
  corpus <> [] ->
  incl (keys corpus) (keys prev) ->
  exists v, new_rank corpus damping_factor prev i = Ok v.
Proof.
  intros Hne Hincl. unfold new_rank.
  rewrite div_int_nonzero by (rewrite len_zero_iff; exact Hne). simpl.
  assert (Hloop : forall l s, incl l (keys corpus) ->
            exists s',
              for_each (fun sum_Iteration p =>
                  links <- item p corpus ;;
                  if contains i links then
                    r <- item p prev ;;
                    q <- div_int r (len links) ;;
                    Ok (fadd sum_Iteration q)
                  else Ok sum_Iteration) l s = Ok s').
  { induction l as [|p l IH]; intros s Hl; simpl; [eauto|].
    assert (Hp : In p (keys corpus)) by (apply Hl; now left).
    destruct (item_ok _ _ Hp) as (links & Hitem & _). rewrite Hitem. simpl.
    assert (Hl' : incl l (keys corpus)) by (intros x Hx; apply Hl; now right).
    destruct (contains i links) eqn:Hc; [|simpl; now apply IH].
    destruct (item_ok _ _ (Hincl _ Hp)) as (r & Hr & _). rewrite Hr. simpl.
    rewrite div_int_nonzero.
    - simpl. now apply IH.
    - rewrite len_zero_iff. intros ->. discriminate. }
  destruct (Hloop (keys corpus) (of_int 0) (incl_refl _)) as [s' Hs'].
  rewrite Hs'. simpl. eauto.
Qed.



(** One step of the pass writes the new rank of [i] into the vector it read
    it from. *)
Lemma pass_step_ok (s : dict F) (c : Z) (i : string) (s' : dict F) (c' : Z) :
  pass_step corpus damping_factor (s, c) i = Ok (s', c') ->
  exists v old,
    new_rank corpus damping_factor s i = Ok v /\
    dget i s = Some old /\
    s' = dset i v s /\
    c' = (if check_test old v then c + 1 else c).
Proof.
  unfold pass_step. intros Hstep.
  apply bind_ok in Hstep as (v & Hv & Hstep).
  apply bind_ok in Hstep as (old & Hold & Hstep).
  inversion Hstep; subst. exists v, old. repeat split; auto.
  now apply item_inv.
Qed.

Lemma pass_loop_frame (l : list string) (s : dict F) (c : Z) (s' : dict F)
    (c' : Z) :
  for_each (pass_step corpus damping_factor) l (s, c) = Ok (s', c') ->
  keys s' = keys s /\ forall k, ~ In k l -> dget k s' = dget k s.
Proof.
  revert s c. induction l as [|i l IH]; intros s c; simpl.
  - intros [= -> ->]. auto.
  - intros Hrun. apply bind_ok in Hrun as ([s1 c1] & Hstep & Hrest).
    apply pass_step_ok in Hstep as (v & old & _ & Hold & -> & _).
    destruct (IH _ _ Hrest) as (Hk & Hframe). split.
    + rewrite Hk. apply keys_dset_in. apply dget_in_keys. eauto.
    + intros k Hk'. rewrite Hframe by tauto. apply dget_dset_other. tauto.
Qed.

(** [check] counts the pages that passed the test. *)
Lemma pass_loop_check (prev : dict F) (l : list string) (s : dict F) (c : Z)
    (new : dict F) (check : Z) :
  NoDup l ->
  (forall k, In k l -> dget k s = dget k prev) ->
  for_each (pass_step corpus damping_factor) l (s, c) = Ok (new, check) ->
  check = c + len (filter (passed prev new) l).
Proof.
  revert s c. induction l as [|i l IH]; intros s c Hnd Hs; simpl.
  - intros [= _ ->]. change (len (@nil string)) with 0. lia.
  - intros Hrun. apply bind_ok in Hrun as ([s1 c1] & Hstep & Hrest).
    apply pass_step_ok in Hstep as (v & old & _ & Hold & -> & ->).
    inversion Hnd as [|? ? Hi Hnd']; subst.
    assert (Hnew : dget i new = Some v).
    { apply pass_loop_frame in Hrest as [_ Hframe].
      rewrite Hframe by exact Hi. apply dget_dset_same. }
    assert (Hprev : dget i prev = Some old).
    { rewrite <- Hs by now left. exact Hold. }
    apply IH in Hrest; auto.
    + unfold passed at 1. rewrite Hprev, Hnew.
      destruct (check_test old v); [rewrite len_cons|]; lia.
    + intros k Hk. rewrite dget_dset_other; [apply Hs; now right|].
      intros ->. contradiction.
Qed.

Lemma pass_loop_total (l : list string) (s : dict F) (c : Z) :
  corpus <> [] ->
  incl (keys corpus) (keys s) ->
  incl l (keys corpus) ->
  exists s' c', for_each (pass_step corpus damping_factor) l (s, c) = Ok (s', c').
Proof.
  intros Hne. revert s c. induction l as [|i l IH]; intros s c Hs Hl; simpl.
  - eauto.
  - destruct (new_rank_total s i Hne Hs) as [v Hv].
    assert (Hi : In i (keys s)) by (apply Hs, Hl; now left).
    destruct (item_ok _ _ Hi) as (old & Hold & _).
    unfold pass_step at 1. rewrite Hv. simpl. rewrite Hold. simpl.
    apply IH.
    + now rewrite keys_dset_in.
    + intros x Hx. apply Hl. now right.
Qed.

Lemma one_pass_total (s : dict F) :
  corpus <> [] ->
  incl (keys corpus) (keys s) ->
  exists s' c', one_pass corpus damping_factor s = Ok (s', c') /\ keys s' = keys s.
Proof.
  intros Hne Hs.
  destruct (pass_loop_total (keys corpus) s 0 Hne Hs (incl_refl _))
    as (s' & c' & Hrun).
  exists s', c'. split; [exact Hrun|].
  now apply pass_loop_frame in Hrun.
Qed.

Lemma initial_ranks_map :
  NoDup (keys corpus) ->
  corpus <> [] ->
  initial_ranks corpus
  = Ok (map (fun k => (k, fquot (of_int 1) (of_int (len corpus)))) (keys corpus)).
Proof.
  intros Hnd Hne. unfold initial_ranks.
  rewrite for_each_pure
    with (f := fun r k => dset k (fquot (of_int 1) (of_int (len corpus))) r).
  - now rewrite (fill_dict (fun _ => fquot (of_int 1) (of_int (len corpus)))).
  - intros r k _. rewrite div_int_nonzero by (rewrite len_zero_iff; exact Hne).
    reflexivity.
Qed.

End Pass.

(** C3 (amended).  A pass updates the rank vector in place, in corpus order:
    when the pass reaches page [i], the vector it reads holds this pass's new
    ranks at the pages before [i] and the previous pass's ranks at [i] and at
    the pages after it; the new rank of [i] is computed from that vector. *)
Theorem pass_updates_in_place :
  forall (F : Type) (HF : PyFloat F) (corpus : Corpus) (d : F)
         (prev new : dict F) (check : Z) (l1 l2 : list string) (i : string),
    NoDup (keys corpus) ->
    one_pass corpus d prev = Ok (new, check) ->
    keys corpus = l1 ++ i :: l2 ->
    exists (snapshot : dict F) (v : F),
      (forall k, In k l1 -> dget k snapshot = dget k new) /\
      (forall k, ~ In k l1 -> dget k snapshot = dget k prev) /\
      new_rank corpus d snapshot i = Ok v /\
      dget i new = Some v.
Proof.
  intros F HF corpus d prev new check l1 l2 i Hnd Hpass Hsplit.
  unfold one_pass in Hpass. rewrite Hsplit in Hpass, Hnd.
  rewrite for_each_app in Hpass.
  apply bind_ok in Hpass as ([s1 c1] & Hl1 & Hrest).
  simpl in Hrest. apply bind_ok in Hrest as ([s2 c2] & Hstep & Hl2).
  apply pass_step_ok in Hstep as (v & old & Hv & _ & -> & _).
  apply pass_loop_frame in Hl1 as (_ & Hframe1).
  apply pass_loop_frame in Hl2 as (_ & Hframe2).
  assert (Hi1 : ~ In i l1).
  { apply NoDup_remove_2 in Hnd. intros C. apply Hnd, in_or_app. now left. }
  assert (Hi2 : ~ In i l2).
  { apply NoDup_remove_2 in Hnd. intros C. apply Hnd, in_or_app. now right. }
  exists s1, v. repeat split; auto.
  - intros k Hk.
    assert (Hki : i <> k) by (intros ->; contradiction).
    assert (Hk2 : ~ In k l2).
    { intros C. revert Hnd. clear - Hk C.
      induction l1 as [|a l1 IH]; simpl; [inversion Hk|].
      intros Hnd. inversion Hnd; subst. destruct Hk as [->|Hk].
      - apply H1. apply in_or_app. right. now right.
      - now apply IH. }
    rewrite Hframe2 by exact Hk2. now rewrite dget_dset_other.
  - rewrite Hframe2 by exact Hi2. apply dget_dset_same.
Qed.

(** ** The iterative estimator: the loop *)

Section Loop.

Context {F : Type} `{PyFloat F}.

Variable corpus : Corpus.
Variable d : F.

Lemma iterate_loop_mono (fuel extra : nat) (s : dict F) (r : res (dict F)) :
  iterate_loop fuel corpus d s = Some r ->
  iterate_loop (fuel + extra) corpus d s = Some r.
Proof.
  revert s. induction fuel as [|fuel IH]; intros s; simpl; [discriminate|].
  destruct (one_pass corpus d s) as [[s' check]|e]; auto.
  destruct (check =? len corpus); auto.
Qed.

Lemma iterate_loop_running (fuel : nat) (s : dict F) :
  iterate_loop fuel corpus d s = None <->
  forall j, (j < fuel)%nat -> keeps_running corpus d s j.
Proof.
  revert s. induction fuel as [|fuel IH]; intros s; simpl.
  - split; [intros _ j Hj; lia | reflexivity].
  - destruct (one_pass corpus d s) as [[s' check]|e] eqn:Hpass.
    + destruct (Z.eqb_spec check (len corpus)) as [Hc|Hc].
      * split; [discriminate|]. intros Hall.
        destruct (Hall O ltac:(lia)) as (s1 & c1 & Hrun & Hne).
        simpl in Hrun. congruence.
      * rewrite IH. split.
        -- intros Hall [|j] Hj.
           ++ exists s', check. simpl. auto.
           ++ destruct (Hall j ltac:(lia)) as (s1 & c1 & Hrun & Hne).
              exists s1, c1. simpl. rewrite Hpass. simpl. auto.
        -- intros Hall j Hj.
           destruct (Hall (S j) ltac:(lia)) as (s1 & c1 & Hrun & Hne).
           simpl in Hrun. rewrite Hpass in Hrun. simpl in Hrun.
           exists s1, c1. auto.
    + split; [discriminate|]. intros Hall.
      destruct (Hall O ltac:(lia)) as (s1 & c1 & Hrun & Hne).
      simpl in Hrun. congruence.
Qed.

Lemma iterate_loop_returns (fuel : nat) (s : dict F) (r : dict F) :
  iterate_loop fuel corpus d s = Some (Ok r) ->
  exists j s',
    (j < fuel)%nat /\
    (forall j', (j' < j)%nat -> keeps_running corpus d s j') /\
    nth_pass j corpus d s = Ok (s', len corpus) /\
    normalize s' = Ok r.
Proof.
  revert s. induction fuel as [|fuel IH]; intros s; simpl; [discriminate|].
  destruct (one_pass corpus d s) as [[s' check]|e] eqn:Hpass; [|discriminate].
  destruct (Z.eqb_spec check (len corpus)) as [Hc|Hc].
  - intros [= Hr]. exists O, s'. repeat split; [lia | intros; lia | | exact Hr].
    simpl. congruence.
  - intros Hrun. destruct (IH _ Hrun) as (j & s1 & Hj & Hbefore & Hnth & Hnorm).
    exists (S j), s1. repeat split; [lia | | | exact Hnorm].
    + intros [|j'] Hj'.
      * exists s', check. simpl. auto.
      * destruct (Hbefore j' ltac:(lia)) as (s2 & c2 & Hrun2 & Hne).
        exists s2, c2. simpl. rewrite Hpass. simpl. auto.
    + simpl. rewrite Hpass. simpl. exact Hnth.
Qed.

End Loop.

(** C5 (amended).  The loop has no iteration cap and no error signal for
    non-convergence.  It runs pass after pass: it is still running after
    [fuel] passes exactly when each of them ended with [check] different from
    the number of pages, whatever [fuel] is; and it returns a dictionary only
    as the normalised vector of the first pass that ended with [check] equal
    to the number of pages. *)
Theorem iterate_loop_uncapped :
  forall (F : Type) (HF : PyFloat F) (corpus : Corpus) (d : F) (s : dict F)
         (fuel : nat),
    (iterate_loop fuel corpus d s = None <->
     forall j, (j < fuel)%nat -> keeps_running corpus d s j)
    /\ (forall r, iterate_loop fuel corpus d s = Some (Ok r) ->
          exists j s',
            (j < fuel)%nat /\
            (forall j', (j' < j)%nat -> keeps_running corpus d s j') /\
            nth_pass j corpus d s = Ok (s', len corpus) /\
            normalize s' = Ok r).
Proof.
  intros F HF corpus d s fuel. split.
  - apply iterate_loop_running.
  - intros r. apply iterate_loop_returns.
Qed.

Lemma iterate_loop_resume {F : Type} `{PyFloat F} (corpus : Corpus) (d : F)
    (a b : nat) (s s' : dict F) (check : Z) :
  iterate_loop (S a) corpus d s = None ->
  nth_pass a corpus d s = Ok (s', check) ->
  iterate_loop (S a + b) corpus d s = iterate_loop b corpus d s'.
Proof.
  revert s. induction a as [|a IH]; intros s.
  - simpl. destruct (one_pass corpus d s) as [[s1 c1]|e]; [|discriminate].
    destruct (c1 =? len corpus); [discriminate|].
    intros _ [= -> ->]. reflexivity.
  - cbn [iterate_loop nth_pass Nat.add].
    destruct (one_pass corpus d s) as [[s1 c1]|e]; [|discriminate].
    destruct (c1 =? len corpus); [discriminate|]. simpl.
    intros Hnone Hnth. now apply IH.
Qed.

Lemma iterate_loop_stuck {F : Type} `{PyFloat F} (corpus : Corpus) (d : F)
    (s : dict F) (check : Z) :
  one_pass corpus d s = Ok (s, check) ->
  check <> len corpus ->
  forall fuel, iterate_loop fuel corpus d s = None.
Proof.
  intros Hpass Hne. induction fuel as [|fuel IH]; simpl; auto.
  rewrite Hpass. destruct (Z.eqb_spec check (len corpus)); [contradiction|].
  exact IH.
Qed.

(** ** Evaluations in binary64 *)

(** With damping factor -2.0 the ranks of "1.html" and "2.html" grow in
    magnitude pass after pass, overflow to the infinities, and from then on
    every pass compares NaN with 0.001: the loop never stops and nothing is
    raised. *)
Lemma iterate_pagerank_runs_forever :
  forall fuel : nat,
    iterate_pagerank (F := float) fuel cycle_corpus (-2)%float = None.
Proof.
  assert (Hinit : exists s0, initial_ranks (F := float) cycle_corpus = Ok s0 /\
            iterate_loop 600 cycle_corpus (-2)%float s0 = None /\
            exists s, nth_pass 599 cycle_corpus (-2)%float s0 = Ok (s, 1) /\
                      one_pass cycle_corpus (-2)%float s = Ok (s, 1)).
  { eexists. split; [vm_compute; reflexivity|].
    split; [vm_compute; reflexivity|].
    eexists. split; vm_compute; reflexivity. }
  destruct Hinit as (s0 & Hs0 & Hnone & s & Hnth & Hfix).
  intros fuel. unfold iterate_pagerank. rewrite Hs0.
  destruct (Nat.le_gt_cases fuel 600) as [Hle|Hgt].
  - destruct (iterate_loop fuel cycle_corpus (-2)%float s0) as [r|] eqn:Hrun; auto.
    apply iterate_loop_mono with (extra := (600 - fuel)%nat) in Hrun.
    replace (fuel + (600 - fuel))%nat with 600%nat in Hrun by lia. congruence.
  - replace fuel with (S 599 + (fuel - 600))%nat by lia.
    rewrite (iterate_loop_resume _ _ _ _ _ _ _ Hnone Hnth).
    apply (iterate_loop_stuck _ _ _ 1 Hfix). discriminate.
Qed.

(** ** Determinism *)

Lemma same_graph_keys (c1 c2 : Corpus) :
  same_graph c1 c2 -> keys c1 = keys c2.
Proof.
  induction 1 as [|a b c1 c2 [Hk _] _ IH]; simpl; congruence.
Qed.

Lemma same_graph_len (c1 c2 : Corpus) :
  same_graph c1 c2 -> len c1 = len c2.
Proof.
  intros Hg. unfold len. f_equal. eapply Forall2_length, Hg.
Qed.

Lemma same_graph_item (c1 c2 : Corpus) (p : string) :
  same_graph c1 c2 ->
  match dget p c1, dget p c2 with
  | Some l1, Some l2 => Permutation l1 l2
  | None, None => True
  | _, _ => False
  end.
Proof.
  induction 1 as [|[k1 l1] [k2 l2] c1 c2 [Hk Hp] _ IH]; simpl in *; auto.
  subst k2. destruct (String.eqb p k1); auto.
Qed.

Lemma contains_perm (i : string) (l1 l2 : list string) :
  Permutation l1 l2 -> contains i l1 = contains i l2.
Proof.
  intros Hp. destruct (contains i l2) eqn:E2.
  - apply contains_In. apply contains_In in E2.
    eapply Permutation_in; [symmetry|]; eassumption.
  - destruct (contains i l1) eqn:E1; auto.
    apply contains_In in E1. eapply Permutation_in in E1; [|exact Hp].
    apply contains_In in E1. congruence.
Qed.

Section Determinism.

Context {F : Type} `{PyFloat F}.
Variables c1 c2 : Corpus.
Hypothesis Hsame : same_graph c1 c2.
Variable d : F.

Lemma new_rank_same (s : dict F) (i : string) :
  new_rank c1 d s i = new_rank c2 d s i.
Proof.
  unfold new_rank.
  rewrite (same_graph_len _ _ Hsame), (same_graph_keys _ _ Hsame).
  destruct (div_int (fsub (of_int 1) d) (len c2)); simpl; auto.
  erewrite for_each_ext; [reflexivity|].
  intros acc p _. simpl. unfold item at 1 3.
  pose proof (same_graph_item c1 c2 p Hsame) as Hp.
  destruct (dget p c1) as [l1|], (dget p c2) as [l2|]; try contradiction; auto.
  simpl. rewrite (contains_perm i l1 l2 Hp).
  unfold len. now rewrite (Permutation_length Hp).
Qed.

Lemma one_pass_same (s : dict F) : one_pass c1 d s = one_pass c2 d s.
Proof.
  unfold one_pass. rewrite (same_graph_keys _ _ Hsame).
  apply for_each_ext. intros [s' c] i _. unfold pass_step.
  now rewrite new_rank_same.
Qed.

Lemma iterate_loop_same (fuel : nat) (s : dict F) :
  iterate_loop fuel c1 d s = iterate_loop fuel c2 d s.
Proof.
  revert s. induction fuel as [|fuel IH]; intros s; simpl; auto.
  rewrite one_pass_same, (same_graph_len _ _ Hsame).
  destruct (one_pass c2 d s) as [[s' c]|e]; auto.
  destruct (c =? len c2); auto.
Qed.

Lemma iterate_pagerank_same (fuel : nat) :
  iterate_pagerank fuel c1 d = iterate_pagerank fuel c2 d.
Proof.
  assert (Hinit : initial_ranks (F := F) c1 = initial_ranks c2).
  { unfold initial_ranks.
    now rewrite (same_graph_len _ _ Hsame), (same_graph_keys _ _ Hsame). }
  unfold iterate_pagerank. rewrite Hinit.
  destruct (initial_ranks c2); auto. apply iterate_loop_same.
Qed.

End Determinism.

(** C8.  The outcome of the iterative estimator is a function of its two
    arguments alone.  Two runs on the same graph and damping factor that both
    finish, however long each is left to run and in whatever order the
    out-sets happen to be enumerated, finish with the same outcome (the same
    dictionary, or the same exception).  The model has no random source and
    no state outside the arguments. *)
Theorem iterate_pagerank_deterministic :
  forall (F : Type) (HF : PyFloat F) (c1 c2 : Corpus) (d : F)
         (fuel1 fuel2 : nat) (r1 r2 : res (dict F)),
    same_graph c1 c2 ->
    iterate_pagerank fuel1 c1 d = Some r1 ->
    iterate_pagerank fuel2 c2 d = Some r2 ->
    r1 = r2.
Proof.
  intros F HF c1 c2 d fuel1 fuel2 r1 r2 Hsame H1 H2.
  rewrite (iterate_pagerank_same c1 c2 Hsame d) in H1.
  unfold iterate_pagerank in *.
  destruct (initial_ranks c2) as [s0|e]; [|congruence].
  apply iterate_loop_mono with (extra := fuel2) in H1.
  apply iterate_loop_mono with (extra := fuel1) in H2.
  rewrite Nat.add_comm in H2. congruence.
Qed.

Lemma scripted_sound (F : Type) {HF : PyFloat F} (script : nat -> nat) :
  random_sound (scripted F script).
Proof.
  split.
  - intros l g Hl. simpl. apply nth_In. apply Nat.mod_upper_bound.
    destruct l; simpl; congruence.
  - intros l w g total Htotal. apply choices_total_population in Htotal.
    simpl. apply nth_In. apply Nat.mod_upper_bound.
    destruct l; simpl; congruence.
Qed.

(** ** Configuration is not validated *)

Lemma sample_walk_no_steps {F : Type} `{PyFloat F} (R : Random F)
    (corpus : Corpus) (d : F) (n : Z) (g : rng R) :
  corpus <> [] ->
  NoDup (keys corpus) ->
  n <= 0 ->
  sample_walk R corpus d n g = Ok (map (fun k => (k, 0)) (keys corpus)).
Proof.
  intros Hne Hnd Hn. unfold sample_walk.
  assert (Hc : py_choice R (keys corpus) g = Ok (random_choice R (keys corpus) g)).
  { unfold py_choice. destruct corpus; [congruence | reflexivity]. }
  rewrite Hc. simpl. destruct (random_choice R (keys corpus) g) as [first g1].
  unfold range. replace (Z.to_nat n) with O by lia. simpl.
  now rewrite init_counters.
Qed.

(** C7 (amended).  Neither estimator validates its configuration.  On a
    non-empty corpus: for every damping factor whatever, the iterative
    estimator initialises the ranks and computes its first pass; for every
    damping factor and a negative sample count the sampling estimator takes no
    step of the walk and returns 0/n for every page; for sample count 0 it
    raises ZeroDivisionError, at the first division of the closing loop. *)
Theorem configuration_is_not_validated :
  forall (F : Type) (HF : PyFloat F) (corpus : Corpus),
    corpus <> [] ->
    NoDup (keys corpus) ->
    (forall d : F, exists s0 s1 check,
        initial_ranks corpus = Ok s0 /\ one_pass corpus d s0 = Ok (s1, check))
    /\ (forall (R : Random F) (d : F) (g : rng R) (n : Z),
           n < 0 ->
           sample_pagerank R corpus d n g =
           Ok (map (fun k => (k, fquot (of_int 0) (of_int n))) (keys corpus)))
    /\ (forall (R : Random F) (d : F) (g : rng R),
           sample_pagerank R corpus d 0 g = Raise ZeroDivisionError).
Proof.
  intros F HF corpus Hne Hnd. split; [|split].
  - intros d. rewrite (initial_ranks_map corpus Hnd Hne).
    destruct (one_pass_total corpus d
                (map (fun k => (k, fquot (of_int 1) (of_int (len corpus))))
                     (keys corpus)) Hne) as (s1 & check & Hpass & _).
    { rewrite keys_map_pair. apply incl_refl. }
    eauto.
  - intros R d g n Hn. unfold sample_pagerank.
    rewrite sample_walk_no_steps by (auto; lia). simpl.
    rewrite <- (keys_map_pair (fun _ => 0) (keys corpus)) at 1.
    rewrite quotients_loop; [|lia|now rewrite keys_map_pair].
    now rewrite map_map.
  - intros R d g. unfold sample_pagerank.
    rewrite sample_walk_no_steps by (auto; lia). simpl.
    rewrite <- (keys_map_pair (fun _ => 0) (keys corpus)) at 1.
    apply quotients_loop_zero. destruct corpus; [congruence | discriminate].
Qed.

(** ** The single-page corpus *)

(** C9.  On the corpus {"a.html": set()} with the default damping factor 0.85
    and the default 10000 samples, in binary64: the sampling estimator returns
    {"a.html": 1.0} whatever the random source draws, and the iterative
    estimator returns {"a.html": 1.0} (it stops at its second pass). *)
Theorem single_page_rank :
  forall (R : Random float) (g : rng R),
    random_sound R ->
    sample_pagerank R single_page DAMPING SAMPLES g = Ok [("a.html", 1%float)]
    /\ (forall fuel, (2 <= fuel)%nat ->
          iterate_pagerank fuel single_page DAMPING
          = Some (Ok [("a.html", 1%float)])).
Proof.
  intros R g HR. split.
  - assert (Hne : single_page <> []) by discriminate.
    assert (Hnd : NoDup (keys single_page)).
    { repeat constructor. simpl. tauto. }
    assert (Hacc : weights_accepted single_page (DAMPING (F := float)) = true)
      by (vm_compute; reflexivity).
    destruct (sample_pagerank_shape R single_page DAMPING SAMPLES g HR Hne Hnd
                eq_refl Hacc)
      as (counts & _ & Hkeys & _ & Hsum & Hres).
    rewrite Hres.
    destruct counts as [|[k c] [|kc counts]]; try discriminate.
    simpl in Hkeys, Hsum. injection Hkeys as ->.
    rewrite Z.add_0_r in Hsum. subst c. vm_compute. reflexivity.
  - intros fuel Hfuel. replace fuel with (2 + (fuel - 2))%nat by lia.
    unfold iterate_pagerank.
    change (initial_ranks (F := float) single_page)
      with (Ok ([("a.html", 1%float)] : dict float)).
    apply iterate_loop_mono. vm_compute. reflexivity.
Qed.

(** ** Sinks and the closing normalisation *)

Lemma dget_app_fresh {V : Type} (k : string) (pre d : dict V) :
  ~ In k (keys pre) -> dget k (pre ++ d) = dget k d.
Proof.
  induction pre as [|[k0 v0] pre IH]; simpl; auto.
  intros Hn. destruct (String.eqb_spec k k0) as [->|Hk]; [tauto|].
  apply IH. tauto.
Qed.

Lemma dset_app_fresh {V : Type} (k : string) (x : V) (pre d : dict V) :
  ~ In k (keys pre) -> dset k x (pre ++ d) = pre ++ dset k x d.
Proof.
  induction pre as [|[k0 v0] pre IH]; simpl; auto.
  intros Hn. destruct (String.eqb_spec k k0) as [->|Hk]; [tauto|].
  f_equal. apply IH. tauto.
Qed.

Section Normalize.

Context {F : Type} `{PyFloat F}.

Lemma normalize_loop (z : F) (rest pre : dict F) :
  is_zero z = false ->
  NoDup (keys (pre ++ rest)) ->
  for_each (fun d i =>
      v <- item i d ;;
      q <- div_float v z ;;
      Ok (dset i q d))
    (keys rest) (pre ++ rest)
  = Ok (pre ++ map (fun kv => (fst kv, fquot (snd kv) z)) rest).
Proof.
  intros Hz. revert pre. induction rest as [|[k v] rest IH]; intros pre Hnd.
  - reflexivity.
  - assert (Hk : ~ In k (keys pre)).
    { unfold keys in *. rewrite map_app in Hnd. simpl in Hnd.
      apply NoDup_remove_2 in Hnd. intros C. apply Hnd, in_or_app. now left. }
    assert (Hbody :
              (v0 <- item k (pre ++ (k, v) :: rest) ;;
               q <- div_float v0 z ;;
               Ok (dset k q (pre ++ (k, v) :: rest)))
              = Ok ((pre ++ [(k, fquot v z)]) ++ rest)).
    { unfold item. rewrite dget_app_fresh by exact Hk. simpl.
      rewrite String.eqb_refl. simpl. unfold div_float. rewrite Hz. simpl.
      rewrite dset_app_fresh by exact Hk. simpl. rewrite String.eqb_refl.
      now rewrite <- app_assoc. }
    change (keys ((k, v) :: rest)) with (k :: keys rest).
    cbn [for_each]. rewrite Hbody. cbn [bind]. rewrite IH.
    + now rewrite <- app_assoc.
    + unfold keys in *. rewrite <- app_assoc. rewrite !map_app in *. exact Hnd.
Qed.




End Normalize.



(** ** Evaluations in binary64, continued *)

(** C1.  The test of line 146 is [previous - current <= 0.001]: the [abs] is
    applied to the outcome of the comparison, so a rank that rises passes it
    whatever the rise, and a pass ends the loop exactly when no page's rank
    fell by more than 0.001.  On the chain corpus with damping factor 0.85 the
    first pass leaves [check] at 2, the second pass raises the rank of
    "2.html" by more than 1/64 and still ends with [check = 3]: the loop stops
    there and returns, while the test of the specification fails for
    "2.html". *)
Theorem convergence_test_ignores_rises :
  (forall (F : Type) (HF : PyFloat F) (previous current : F),
      check_test previous current = fle (fsub previous current) lit_0_001)
  /\ (forall (F : Type) (HF : PyFloat F) (corpus : Corpus) (d : F)
             (prev new : dict F) (check : Z),
         NoDup (keys corpus) ->
         one_pass corpus d prev = Ok (new, check) ->
         (check = len corpus <->
          forall i a b, In i (keys corpus) ->
                        dget i prev = Some a -> dget i new = Some b ->
                        fle (fsub a b) lit_0_001 = true))
  /\ exists (s0 s1 s2 r : dict float) (a b : float),
       initial_ranks chain_corpus = Ok s0 /\
       one_pass chain_corpus DAMPING s0 = Ok (s1, 2) /\
       one_pass chain_corpus DAMPING s1 = Ok (s2, 3) /\
       iterate_pagerank 2 chain_corpus DAMPING = Some (Ok r) /\
       dget "2.html" s1 = Some a /\
       dget "2.html" s2 = Some b /\
       PrimFloat.ltb (a + 0x1p-6)%float b = true /\
       check_test a b = true /\
       spec_converged a b = false.
Proof.
  assert (Htest : forall (F : Type) (HF : PyFloat F) (previous current : F),
             check_test previous current
             = fle (fsub previous current) lit_0_001).
  { intros F HF previous current. unfold check_test, truthy, abs_bool.
    now destruct (fle (fsub previous current) lit_0_001). }
  split; [exact Htest|]. split.
  - intros F HF corpus d prev new check Hnd Hpass.
    pose proof (pass_loop_frame corpus d _ _ _ _ _ Hpass) as [Hkeys _].
    assert (Hin : forall i, In i (keys corpus) ->
                            exists a b, dget i prev = Some a /\ dget i new = Some b).
    { intros i Hi. unfold one_pass in Hpass.
      apply in_split in Hi as (l1 & l2 & Hsplit). rewrite Hsplit in Hpass.
      rewrite for_each_app in Hpass.
      apply bind_ok in Hpass as ([s1 c1] & Hl1 & Hrest).
      simpl in Hrest. apply bind_ok in Hrest as ([s2 c2] & Hstep & Hl2).
      apply pass_step_ok in Hstep as (v & old & _ & Hold & -> & _).
      assert (Hk1 : In i (keys s1)) by (apply dget_in_keys; eauto).
      apply pass_loop_frame in Hl1 as [Hk _]. rewrite Hk in Hk1.
      assert (Hk2 : In i (keys new)) by now rewrite Hkeys.
      apply dget_in_keys in Hk1 as [a Ha]. apply dget_in_keys in Hk2 as [b Hb].
      eauto. }
    apply pass_loop_check with (prev := prev) in Hpass; auto.
    rewrite Hpass, Z.add_0_l.
    replace (len corpus) with (len (keys corpus))
      by (unfold len, keys; now rewrite length_map).
    rewrite len_filter_all. split.
    + intros Hall i a b Hi Ha Hb. specialize (Hall i Hi).
      unfold passed in Hall. rewrite Ha, Hb, Htest in Hall. exact Hall.
    + intros Hall i Hi. destruct (Hin i Hi) as (a & b & Ha & Hb).
      unfold passed. rewrite Ha, Hb, Htest. now apply (Hall i).
  - do 6 eexists.
    split; [vm_compute; reflexivity|].
    split; [vm_compute; reflexivity|].
    split; [vm_compute; reflexivity|].
    split; [vm_compute; reflexivity|].
    split; [vm_compute; reflexivity|].
    split; [vm_compute; reflexivity|].
    repeat split; vm_compute; reflexivity.
Qed.


(** C3, the claim refuted: on the chain corpus the first pass computes the new
    rank of "2.html" from the new rank of "1.html"; the synchronous pass of
    the specification gives "2.html" a larger rank. *)
Lemma pass_is_not_synchronous :
  exists (s0 s1 s1' : dict float) (check : Z) (a b : float),
    initial_ranks chain_corpus = Ok s0 /\
    one_pass chain_corpus DAMPING s0 = Ok (s1, check) /\
    spec_synchronous_pass chain_corpus DAMPING s0 = Ok s1' /\
    dget "2.html" s1 = Some a /\
    dget "2.html" s1' = Some b /\
    PrimFloat.ltb a b = true.
Proof.
  do 6 eexists.
  split; [vm_compute; reflexivity|].
  split; [vm_compute; reflexivity|].
  split; [vm_compute; reflexivity|].
  split; [vm_compute; reflexivity|].
  split; vm_compute; reflexivity.
Qed.

(** C4, the claim refuted: in binary64, on five sinks with damping factor
    0.85, every weight is the same float and their sum is below 1. *)
Lemma transition_model_sum_rounds :
  exists (r : dict float) (x : float),
    transition_model five_sinks "a.html" DAMPING = Ok r /\
    values r = [x; x; x; x; x] /\
    PrimFloat.ltb (py_sum (values r)) 1 = true.
Proof.
  do 2 eexists.
  split; [vm_compute; reflexivity|].
  split; vm_compute; reflexivity.
Qed.

(** C5, the claim refuted: on the cycle corpus with damping factor -2.0 the
    loop reaches a vector that a pass maps to itself with [check = 1], not 3;
    it is still running after any number of passes, and nothing is raised. *)
Lemma iterate_pagerank_has_no_cap :
  exists (s0 s : dict float),
    initial_ranks cycle_corpus = Ok s0 /\
    nth_pass 599 cycle_corpus (-2)%float s0 = Ok (s, 1) /\
    one_pass cycle_corpus (-2)%float s = Ok (s, 1) /\
    forall fuel : nat,
      iterate_pagerank fuel cycle_corpus (-2)%float = None.
Proof.
  do 2 eexists.
  split; [vm_compute; reflexivity|].
  split; [vm_compute; reflexivity|].
  split; [vm_compute; reflexivity|].
  apply iterate_pagerank_runs_forever.
Qed.


(** C7, the claim refuted: damping factor 2.0 is accepted by the iterative
    estimator, and sample count -1 by the sampling estimator; both return a
    dictionary. *)
Lemma invalid_configuration_accepted :
  iterate_pagerank 2 single_page 2%float = Some (Ok [("a.html", 1%float)])
  /\ sample_pagerank (scripted float (fun _ => 0%nat)) single_page DAMPING
                     (-1) 0%nat
     = Ok [("a.html", (-0)%float)].
Proof.
  split; vm_compute; reflexivity.
Qed.

(** ** The theorems at concrete inputs *)

Ltac distinct_strings := repeat constructor; simpl; intuition discriminate.

Ltac closed_out_sets :=
  repeat first [apply Forall_nil | apply Forall_cons];
  (split; [distinct_strings | intros x Hx; simpl in *; intuition (subst; auto)]).

(** The three-page corpus of the specification's scenario is well formed. *)
Lemma scenario_corpus_wf : wf_corpus scenario_corpus.
Proof.
  split; [distinct_strings | closed_out_sets].
Defined.

(** C10 at the sink "a.html" of the two-page corpus, in binary64. *)
Lemma transition_model_total_witness :
  exists r, transition_model sink_corpus "a.html" (DAMPING (F := float)) = Ok r.
Proof.
  apply (transition_model_total float _ sink_corpus "a.html" DAMPING).
  - discriminate.
  - simpl. auto.
Defined.

(** C4 at page "2.html" of the scenario corpus, in exact arithmetic. *)
Lemma transition_model_distribution_witness :
  exists r, transition_model scenario_corpus "2.html" (DAMPING (F := Qc)) = Ok r /\
            keys r = keys scenario_corpus /\
            py_sum (values r) = 1%Qc.
Proof.
  apply (proj2 (transition_model_distribution scenario_corpus "2.html"
                  ["1.html"; "3.html"] scenario_corpus_wf eq_refl)).
Defined.


(** C3 at the first pass over the chain corpus, for page "2.html": the
    vector it is computed from holds the new rank of "1.html". *)
Lemma pass_updates_in_place_witness :
  exists (prev new : dict float) (check : Z),
    initial_ranks chain_corpus = Ok prev /\
    one_pass chain_corpus DAMPING prev = Ok (new, check) /\
    exists (snapshot : dict float) (v : float),
      (forall k, In k ["1.html"] -> dget k snapshot = dget k new) /\
      (forall k, ~ In k ["1.html"] -> dget k snapshot = dget k prev) /\
      new_rank chain_corpus DAMPING snapshot "2.html" = Ok v /\
      dget "2.html" new = Some v.
Proof.
  do 3 eexists.
  split; [vm_compute; reflexivity|].
  split; [vm_compute; reflexivity|].
  eapply (pass_updates_in_place float _ chain_corpus DAMPING _ _ _
            ["1.html"] ["3.html"] "2.html").
  - distinct_strings.
  - vm_compute. reflexivity.
  - reflexivity.
Defined.

(** C7 on the two-page corpus with damping factor 2.0 and sample count 0. *)
Lemma configuration_is_not_validated_witness :
  sample_pagerank (scripted float visits) sink_corpus 2%float 0 0%nat
  = Raise ZeroDivisionError.
Proof.
  apply (proj2 (proj2 (configuration_is_not_validated float _ sink_corpus
                         ltac:(discriminate) ltac:(distinct_strings)))).
Defined.

(** C8 on the scenario corpus, with the out-set of "2.html" enumerated in its
    two orders and the runs allowed 50 and 60 passes. *)
Lemma iterate_pagerank_deterministic_witness :
  exists r1 r2 : res (dict float),
    same_graph scenario_corpus scenario_corpus_reordered /\
    iterate_pagerank 50 scenario_corpus DAMPING = Some r1 /\
    iterate_pagerank 60 scenario_corpus_reordered DAMPING = Some r2 /\
    r1 = r2.
Proof.
  do 2 eexists.
  assert (Hsame : same_graph scenario_corpus scenario_corpus_reordered).
  { repeat constructor. }
  split; [exact Hsame|].
  split; [vm_compute; reflexivity|].
  split; [vm_compute; reflexivity|].
  eapply (iterate_pagerank_deterministic float _ scenario_corpus
            scenario_corpus_reordered DAMPING 50 60 _ _ Hsame).
  - vm_compute. reflexivity.
  - vm_compute. reflexivity.
Defined.

(** C9 with the scripted random source. *)
Lemma single_page_rank_witness :
  sample_pagerank (scripted float visits) single_page DAMPING SAMPLES 0%nat
  = Ok [("a.html", 1%float)].
Proof.
  apply (proj1 (single_page_rank (scripted float visits) 0%nat
                  (scripted_sound float visits))).
Defined.


(** C5 on the single-page corpus: the loop returns at its second pass. *)
Lemma iterate_loop_uncapped_witness :
  exists (j : nat) (s' : dict float),
    (j < 2)%nat /\
    (forall j', (j' < j)%nat ->
                keeps_running single_page DAMPING [("a.html", 1%float)] j') /\
    nth_pass j single_page DAMPING [("a.html", 1%float)]
    = Ok (s', len single_page) /\
    normalize s' = Ok [("a.html", 1%float)].
Proof.
  apply (proj2 (iterate_loop_uncapped float _ single_page DAMPING
                  [("a.html", 1%float)] 2)).
  vm_compute. reflexivity.
Defined.

(** C1 on the chain corpus: its second pass ends the loop, and no rank fell
    by more than 0.001 in it. *)
Lemma convergence_test_ignores_rises_witness :
  exists s0 s1 s2 : dict float,
    initial_ranks chain_corpus = Ok s0 /\
    one_pass chain_corpus DAMPING s0 = Ok (s1, 2) /\
    one_pass chain_corpus DAMPING s1 = Ok (s2, 3) /\
    (3 = len chain_corpus <->
     forall i a b, In i (keys chain_corpus) ->
                   dget i s1 = Some a -> dget i s2 = Some b ->
                   fle (fsub a b) lit_0_001 = true).
Proof.
  do 3 eexists.
  split; [vm_compute; reflexivity|].
  split; [vm_compute; reflexivity|].
  split; [vm_compute; reflexivity|].
  eapply (proj1 (proj2 convergence_test_ignores_rises) float _ chain_corpus
            DAMPING).
  - distinct_strings.
  - vm_compute. reflexivity.
Defined.

(** * Further properties *)

(** ** crawl *)

Lemma NoDup_keys_dset {V : Type} (k : string) (v : V) (d : dict V) :
  NoDup (keys d) -> NoDup (keys (dset k v d)).
Proof.
  intros Hnd. destruct (in_dec string_dec k (keys d)) as [Hin|Hout].
  - now rewrite keys_dset_in.
  - rewrite dset_fresh by exact Hout. unfold keys in *. rewrite map_app. simpl.
    apply NoDup_app; auto.
    + repeat constructor. simpl. tauto.
    + intros x Hx [<-|[]]. contradiction.
Qed.

Lemma Forall_dset {V : Type} (P : string * V -> Prop) (k : string) (v : V)
    (d : dict V) :
  Forall P d -> P (k, v) -> Forall P (dset k v d).
Proof.
  intros Hall Hkv. induction d as [|[k0 v0] t IH]; simpl.
  - now constructor.
  - inversion Hall; subst. destruct (String.eqb k k0); constructor; auto.
Qed.

Lemma map_fst_filter {A B : Type} (p : A -> bool) (l : list (A * B)) :
  map fst (filter (fun e => p (fst e)) l) = filter p (map fst l).
Proof.
  induction l as [|[a b] l IH]; simpl; auto.
  destruct (p a); simpl; now rewrite IH.
Qed.

Lemma own_links_tidy (filename : string) (links : list string) :
  tidy_entry (filename,
              filter (fun link => negb (String.eqb link filename))
                     (nodup string_dec links)).
Proof.
  split; simpl.
  - apply NoDup_filter, NoDup_nodup.
  - rewrite filter_In. intros [_ Hne]. now rewrite String.eqb_refl in Hne.
Qed.

Lemma crawl_read_inv (findall : string -> list string)
    (directory : list (string * string)) (pages : Corpus) :
  NoDup (keys pages) -> Forall tidy_entry pages ->
  NoDup (keys (fold_left (crawl_read findall) directory pages)) /\
  Forall tidy_entry (fold_left (crawl_read findall) directory pages).
Proof.
  revert pages. induction directory as [|[filename contents] dir IH];
    intros pages Hnd Hall; simpl; auto.
  destruct (endswith filename ".html"); simpl; auto.
  apply IH.
  - now apply NoDup_keys_dset.
  - apply Forall_dset; auto. apply own_links_tidy.
Qed.

(** With distinct names the first loop appends one entry per page. *)
Lemma crawl_read_fresh (findall : string -> list string)
    (directory : list (string * string)) (pages : Corpus) :
  NoDup (keys pages ++ map fst directory) ->
  fold_left (crawl_read findall) directory pages
  = pages ++
    map (fun e => (fst e,
                   filter (fun link => negb (String.eqb link (fst e)))
                          (nodup string_dec (findall (snd e)))))
        (filter (fun e => endswith (fst e) ".html") directory).
Proof.
  revert pages. induction directory as [|[filename contents] dir IH];
    intros pages Hnd; simpl.
  - now rewrite app_nil_r.
  - assert (Hrest : NoDup (keys pages ++ map fst dir)).
    { simpl in Hnd. now apply NoDup_remove_1 in Hnd. }
    assert (Hfresh : ~ In filename (keys pages)).
    { simpl in Hnd. apply NoDup_remove_2 in Hnd. intros C. apply Hnd.
      apply in_or_app. now left. }
    destruct (endswith filename ".html"); simpl.
    + rewrite dset_fresh by exact Hfresh. rewrite IH.
      * now rewrite <- app_assoc.
      * unfold keys in *. rewrite map_app. simpl. rewrite <- app_assoc. exact Hnd.
    + now apply IH.
Qed.

(** The second loop filters every out-set, in place, by the keys. *)
Lemma crawl_filter_loop (K : list string) (rest pre : Corpus) :
  keys (pre ++ rest) = K ->
  NoDup K ->
  for_each crawl_filter (keys rest) (pre ++ rest)
  = Ok (pre ++ map (fun kv => (fst kv,
                               filter (fun link => contains link K) (snd kv)))
                   rest).
Proof.
  revert pre. induction rest as [|[k v] rest IH]; intros pre HK Hnd.
  - reflexivity.
  - assert (Hk : ~ In k (keys pre)).
    { rewrite <- HK in Hnd. unfold keys in *. rewrite map_app in Hnd.
      simpl in Hnd. apply NoDup_remove_2 in Hnd. intros C. apply Hnd.
      apply in_or_app. now left. }
    assert (Hbody : crawl_filter (pre ++ (k, v) :: rest) k
                    = Ok ((pre ++ [(k, filter (fun link => contains link K) v)])
                            ++ rest)).
    { unfold crawl_filter, item. rewrite dget_app_fresh by exact Hk. simpl.
      rewrite String.eqb_refl. simpl.
      rewrite dset_app_fresh by exact Hk. simpl. rewrite String.eqb_refl.
      unfold in_pages. rewrite HK. now rewrite <- app_assoc. }
    change (keys ((k, v) :: rest)) with (k :: keys rest).
    cbn [for_each]. rewrite Hbody. cbn [bind]. rewrite IH; auto.
    + now rewrite <- app_assoc.
    + rewrite <- HK. unfold keys. rewrite <- app_assoc, !map_app. reflexivity.
Qed.

Lemma crawl_closed_form (findall : string -> list string)
    (directory : list (string * string)) :
  let pages := fold_left (crawl_read findall) directory [] in
  crawl findall directory
  = Ok (map (fun kv => (fst kv,
                        filter (fun link => contains link (keys pages)) (snd kv)))
            pages).
Proof.
  intros pages. unfold crawl. fold pages.
  apply (crawl_filter_loop (keys pages) pages []); auto.
  apply (crawl_read_inv findall directory []); constructor.
Qed.

Lemma keys_map_snd {V W : Type} (f : string * V -> W) (d : dict V) :
  keys (map (fun kv => (fst kv, f kv)) d) = keys d.
Proof.
  unfold keys. rewrite map_map. reflexivity.
Qed.

(** What [crawl] guarantees of its result, entry by entry. *)
Lemma crawl_invariants (findall : string -> list string)
    (directory : list (string * string)) :
  exists corpus,
    crawl findall directory = Ok corpus /\
    NoDup (keys corpus) /\
    forall page links,
      dget page corpus = Some links ->
      NoDup links /\ incl links (keys corpus) /\ ~ In page links.
Proof.
  pose (pages := fold_left (crawl_read findall) directory []).
  destruct (crawl_read_inv findall directory []) as [Hnd Htidy];
    [constructor | constructor |]. fold pages in Hnd, Htidy.
  eexists. split; [apply crawl_closed_form|]. fold pages.
  rewrite Forall_forall in Htidy.
  split; [now rewrite keys_map_snd|].
  intros page links Hget. apply dget_in in Hget.
  apply in_map_iff in Hget as ([k l0] & [= <- <-] & Hin).
  destruct (Htidy _ Hin) as [Hl0 Hself]. simpl in *.
  rewrite keys_map_snd. repeat split.
  - now apply NoDup_filter.
  - intros x Hx. apply filter_In in Hx as [_ Hx]. now apply contains_In.
  - rewrite filter_In. tauto.
Qed.

(** X1.  Whatever the listing and whatever the links found in the files,
    [crawl] raises nothing and returns a well-formed corpus: distinct pages,
    each out-set without duplicates and within the pages, and no page in its
    own out-set. *)
Theorem crawl_well_formed :
  forall (findall : string -> list string) (directory : list (string * string)),
    exists corpus,
      crawl findall directory = Ok corpus /\
      wf_corpus corpus /\
      forall page links, dget page corpus = Some links -> ~ In page links.
Proof.
  intros findall directory.
  destruct (crawl_invariants findall directory) as (corpus & Hcrawl & Hnd & Hinv).
  exists corpus. split; [exact Hcrawl|]. split; [split; [exact Hnd|]|].
  - apply Forall_forall. intros [k links] Hin. simpl.
    apply (dget_NoDup k links corpus Hnd) in Hin.
    destruct (Hinv _ _ Hin) as (Hl & Hincl & _). auto.
  - intros page links Hget. now apply (Hinv _ _ Hget).
Qed.

(** X2.  On a listing of distinct names the pages of the corpus are the names
    that end in ".html", in the order of the listing, and the out-set of a
    page holds exactly the links found in its file that are another page of
    the corpus. *)
Theorem crawl_pages_and_links :
  forall (findall : string -> list string) (directory : list (string * string)),
    NoDup (map fst directory) ->
    exists corpus,
      crawl findall directory = Ok corpus /\
      keys corpus = html_files directory /\
      forall name contents,
        In (name, contents) directory ->
        endswith name ".html" = true ->
        exists links,
          dget name corpus = Some links /\
          forall link,
            In link links <->
            (In link (findall contents) /\ link <> name /\
             In link (html_files directory)).
Proof.
  intros findall directory Hnames.
  pose proof (crawl_closed_form findall directory) as Hcrawl. cbv zeta in Hcrawl.
  rewrite (crawl_read_fresh findall directory []) in Hcrawl by exact Hnames.
  simpl app in Hcrawl.
  set (own := fun e : string * string =>
                (fst e, filter (fun link => negb (String.eqb link (fst e)))
                               (nodup string_dec (findall (snd e))))) in *.
  set (html := filter (fun e : string * string => endswith (fst e) ".html")
                      directory) in *.
  assert (HK : keys (map own html) = html_files directory).
  { unfold keys. rewrite map_map. simpl. unfold html, html_files.
    apply (map_fst_filter (fun name => endswith name ".html")). }
  rewrite HK in Hcrawl.
  eexists. split; [exact Hcrawl|]. split.
  - now rewrite keys_map_snd.
  - intros name contents Hin Hhtml. eexists. split.
    + apply dget_NoDup.
      * rewrite keys_map_snd, HK. now apply NoDup_filter.
      * apply in_map_iff. exists (own (name, contents)). split; [reflexivity|].
        apply in_map. apply filter_In. auto.
    + intros link. simpl. rewrite !filter_In, nodup_In, contains_In.
      rewrite negb_true_iff. split.
      * intros [[Hfound Hne] Hpage]. repeat split; auto.
        intros ->. now rewrite String.eqb_refl in Hne.
      * intros (Hfound & Hne & Hpage). repeat split; auto.
        now apply String.eqb_neq.
Qed.

(** ** More on the transition model *)

Lemma transition_model_missing {F : Type} `{PyFloat F} (corpus : Corpus)
    (page : string) (d : F) :
  corpus <> [] ->
  ~ In page (keys corpus) ->
  transition_model corpus page d = Raise KeyError.
Proof.
  intros Hne Hout.
  assert (Hget : dget page corpus = None).
  { destruct (dget page corpus) eqn:E; auto.
    exfalso. apply Hout. apply dget_in_keys. eauto. }
  destruct corpus as [|[k v] t]; [congruence|].
  unfold transition_model. change (keys ((k, v) :: t)) with (k :: keys t).
  cbn [for_each]. rewrite div_int_nonzero by (rewrite len_zero_iff; discriminate).
  cbn [bind]. unfold item. rewrite Hget. reflexivity.
Qed.

(** X3.  The transition model raises in one case only: the corpus is not
    empty and the current page is not one of its keys; what it raises then is
    KeyError.  On the empty corpus it returns the empty dictionary for every
    page, and it never divides by zero. *)
Theorem transition_model_raises :
  forall (F : Type) (HF : PyFloat F) (corpus : Corpus) (page : string) (d : F)
         (e : exn),
    transition_model corpus page d = Raise e <->
    (e = KeyError /\ corpus <> [] /\ ~ In page (keys corpus)).
Proof.
  intros F HF corpus page d e. split.
  - intros Hraise. destruct corpus as [|kv t] eqn:Ec; [discriminate|].
    rewrite <- Ec in *. assert (Hne : corpus <> []) by congruence.
    destruct (in_dec string_dec page (keys corpus)) as [Hin|Hout].
    + apply dget_in_keys in Hin as [links Hget].
      rewrite (transition_model_fold corpus page links d Hne Hget) in Hraise.
      discriminate.
    + rewrite (transition_model_missing corpus page d Hne Hout) in Hraise.
      inversion Hraise. auto.
  - intros (-> & Hne & Hout). now apply transition_model_missing.
Qed.

(** The links of an out-set that are pages, counted among the keys, and the
    links that are no page make up the out-set. *)
Lemma links_inside_outside (ks links : list string) :
  NoDup ks -> NoDup links ->
  len (filter (fun p => contains p links) ks)
  + len (filter (fun l => negb (contains l ks)) links)
  = len links.
Proof.
  intros Hk Hl.
  assert (E : len (filter (fun p => contains p links) ks)
              = len (filter (fun l => contains l ks) links)).
  { unfold len. f_equal. apply Permutation_length.
    apply NoDup_Permutation; try now apply NoDup_filter.
    intros x. rewrite !filter_In, !contains_In. tauto. }
  rewrite E. unfold len. rewrite <- Nat2Z.inj_add. f_equal.
  apply filter_length.
Qed.

(** The total weight, in exact arithmetic. *)
Lemma transition_model_mass (corpus : Corpus) (page : string)
    (links : list string) (d : Qc) :
  NoDup (keys corpus) ->
  NoDup links ->
  dget page corpus = Some links ->
  exists r,
    transition_model corpus page d = Ok r /\
    keys r = keys corpus /\
    py_sum (values r)
    = (1 - d * (of_int (len (filter (fun l => negb (contains l (keys corpus)))
                                    links))
                / of_int (len links)))%Qc.
Proof.
  intros Hkeys Hnd Hget.
  rewrite (transition_model_map corpus page links d Hkeys Hget).
  eexists. split; [reflexivity|]. split; [apply keys_map_pair|].
  rewrite values_map_pair, py_sum_Qc.
  assert (HN : of_int (F := Qc) (len corpus) <> 0%Qc).
  { apply of_int_Qc_nonzero. rewrite len_zero_iff.
    destruct corpus; [discriminate | congruence]. }
  assert (Hlen : len (keys corpus) = len corpus)
    by (unfold len, keys; now rewrite length_map).
  rewrite (map_ext _ _ (fun p => weight_cases corpus links d p Hnd)).
  destruct links as [|l0 links'].
  - unfold teleport. qc_ops. rewrite Qsum_const, Hlen, of_int_Qc_1.
    change (len (filter (fun l => negb (contains l (keys corpus))) []))
      with 0%Z.
    change (len (@nil string)) with 0%Z. rewrite of_int_Qc_0.
    replace (0 / 0)%Qc with 0%Qc by (unfold Qcdiv; now rewrite Qcmult_0_l).
    field. exact HN.
  - set (links := l0 :: links') in *. unfold teleport. qc_ops.
    rewrite (Qsum_two_valued (fun p => contains p links)), Hlen, of_int_Qc_1.
    assert (HL : of_int (F := Qc) (len links) <> 0%Qc).
    { apply of_int_Qc_nonzero. rewrite len_zero_iff. discriminate. }
    pose proof (links_inside_outside (keys corpus) links Hkeys Hnd) as Hcount.
    replace (len (filter (fun p => contains p links) (keys corpus)))
      with (len links
            + - len (filter (fun l => negb (contains l (keys corpus))) links))%Z
      by lia.
    rewrite of_int_Qc_add.
    replace (of_int (F := Qc)
               (- len (filter (fun l => negb (contains l (keys corpus))) links)))
      with (- of_int (F := Qc)
                (len (filter (fun l => negb (contains l (keys corpus))) links)))%Qc.
    + field. split; assumption.
    + symmetry. apply of_int_Qc_opp.
Qed.

Lemma filter_nil_iff {A : Type} (f : A -> bool) (l : list A) :
  filter f l = [] <-> forall x, In x l -> f x = false.
Proof.
  induction l as [|a l IH]; simpl.
  - split; [intros _ x [] | reflexivity].
  - destruct (f a) eqn:E.
    + split; [discriminate|]. intros Hall.
      rewrite (Hall a) in E by now left. discriminate.
    + rewrite IH. split.
      * intros Hall x [<-|Hx]; auto.
      * intros Hall x Hx. apply Hall. now right.
Qed.

(** X4.  In exact arithmetic, for a current page with out-set [links], the
    weights of the transition model sum to 1 - d * (the number of links that
    are no page of the corpus) / (the number of links): the share of every
    link that leads outside the corpus is lost.  The weights sum to 1 exactly
    when the damping factor is 0 or every link is a page. *)
Theorem transition_model_lost_mass :
  forall (corpus : Corpus) (page : string) (links : list string) (d : Qc),
    NoDup (keys corpus) ->
    NoDup links ->
    dget page corpus = Some links ->
    exists r,
      transition_model corpus page d = Ok r /\
      py_sum (values r)
      = (1 - d * (of_int (len (filter (fun l => negb (contains l (keys corpus)))
                                      links))
                  / of_int (len links)))%Qc /\
      (py_sum (values r) = 1%Qc <-> d = 0%Qc \/ incl links (keys corpus)).
Proof.
  intros corpus page links d Hkeys Hnd Hget.
  destruct (transition_model_mass corpus page links d Hkeys Hnd Hget)
    as (r & Hr & _ & Hsum).
  exists r. split; [exact Hr|]. split; [exact Hsum|]. rewrite Hsum.
  set (outside := filter (fun l => negb (contains l (keys corpus))) links).
  assert (Hout : outside = [] <-> incl links (keys corpus)).
  { unfold outside. rewrite filter_nil_iff. split.
    - intros Hall x Hx. apply contains_In. specialize (Hall x Hx).
      now apply negb_false_iff in Hall.
    - intros Hincl x Hx. apply negb_false_iff, contains_In. auto. }
  destruct links as [|l0 links'].
  - split; [intros _; right; intros x []|]. intros _.
    change (len (@nil string)) with 0%Z. rewrite of_int_Qc_0.
    unfold Qcdiv. rewrite Qcmult_0_l, Qcmult_0_r. ring.
  - set (links := l0 :: links') in *.
    assert (HL : of_int (F := Qc) (len links) <> 0%Qc).
    { apply of_int_Qc_nonzero. rewrite len_zero_iff. discriminate. }
    split.
    + intros Heq.
      assert (Hz : (d * (of_int (len outside) / of_int (len links)))%Qc = 0%Qc).
      { transitivity (1 - (1 - d * (of_int (len outside) / of_int (len links))))%Qc;
          [ring | rewrite Heq; ring]. }
      apply Qcmult_integral in Hz as [Hd|Hq]; [now left|]. right.
      apply Hout. apply len_zero_iff.
      destruct (Z.eq_dec (len outside) 0) as [E|E]; auto.
      apply of_int_Qc_nonzero in E. exfalso. apply E.
      unfold Qcdiv in Hq. apply Qcmult_integral in Hq as [Hq|Hq]; auto.
      exfalso. apply HL.
      rewrite <- (Qcmult_1_r (of_int (len links))).
      rewrite <- (Qcmult_inv_l (of_int (len links))) by exact HL.
      rewrite Hq. ring.
    + intros [->|Hincl]; [ring|].
      apply Hout in Hincl. rewrite Hincl.
      change (len (@nil string)) with 0%Z. rewrite of_int_Qc_0.
      unfold Qcdiv. rewrite Qcmult_0_l. ring.
Qed.

(** X5.  In exact arithmetic and for a damping factor between 0 and 1, every
    weight of the transition model lies between 0 and 1. *)
Theorem transition_model_probabilities :
  forall (corpus : Corpus) (page : string) (links : list string) (d : Qc),
    NoDup (keys corpus) ->
    NoDup links ->
    dget page corpus = Some links ->
    (0 <= d)%Qc -> (d <= 1)%Qc ->
    exists r,
      transition_model corpus page d = Ok r /\
      forall p w, In (p, w) r -> (0 <= w)%Qc /\ (w <= 1)%Qc.
Proof.
  intros corpus page links d Hkeys Hnd Hget Hd0 Hd1.
  rewrite (transition_model_map corpus page links d Hkeys Hget).
  eexists. split; [reflexivity|].
  intros p w Hin. apply in_map_iff in Hin as (p' & [= <- <-] & _).
  rewrite weight_cases by exact Hnd. unfold teleport. qc_ops.
  rewrite of_int_Qc_1.
  assert (HN : (1 <= len corpus)%Z).
  { destruct corpus; [discriminate|]. rewrite len_cons.
    pose proof (len_zero_iff corpus). unfold len in *. lia. }
  assert (H1d : (0 <= 1 - d)%Qc).
  { unfold Qcminus. now apply Qcle_minus_iff in Hd1. }
  destruct (Qc_share (1 - d) (len corpus) H1d HN) as [Ha0 Ha1].
  assert (Hsum : forall b : Qc, (0 <= b)%Qc -> (b <= d)%Qc ->
            (0 <= (1 - d) / of_int (len corpus) + b)%Qc /\
            ((1 - d) / of_int (len corpus) + b <= 1)%Qc).
  { intros b Hb0 Hb1. split; [now apply Qc_add_nonneg|].
    replace 1%Qc with ((1 - d) + d)%Qc at 2 by ring.
    now apply Qcplus_le_compat. }
  destruct links as [|l0 links'].
  - destruct (Qc_share d (len corpus) Hd0 HN). now apply Hsum.
  - set (links := l0 :: links') in *.
    assert (HL : (1 <= len links)%Z).
    { unfold links. rewrite len_cons. unfold len. lia. }
    destruct (contains p' links).
    + destruct (Qc_share d (len links) Hd0 HL). now apply Hsum.
    + split; [exact Ha0|]. apply Qcle_trans with (y := (1 - d)%Qc); auto.
      apply Qcle_minus_iff. replace (1 + - (1 - d))%Qc with d by ring. exact Hd0.
Qed.

(** ** More on the sampling estimator *)

Lemma sample_pagerank_empty {F : Type} `{PyFloat F} (R : Random F) (d : F)
    (n : Z) (g : rng R) :
  sample_pagerank R [] d n g = Raise IndexError.
Proof. reflexivity. Qed.

(** Without a step of the walk every counter is still 0 at the closing
    loop. *)
Lemma sample_pagerank_no_steps {F : Type} `{PyFloat F} (R : Random F)
    (corpus : Corpus) (d : F) (n : Z) (g : rng R) :
  corpus <> [] ->
  NoDup (keys corpus) ->
  n <= 0 ->
  sample_pagerank R corpus d n g
  = if n =? 0 then Raise ZeroDivisionError
    else Ok (map (fun k => (k, fquot (of_int 0) (of_int n))) (keys corpus)).
Proof.
  intros Hne Hnd Hn. unfold sample_pagerank.
  rewrite sample_walk_no_steps by auto. cbn [bind].
  rewrite <- (keys_map_pair (fun _ => 0) (keys corpus)) at 1.
  destruct (Z.eqb_spec n 0) as [->|Hn0].
  - apply quotients_loop_zero. destruct corpus; [congruence | discriminate].
  - rewrite quotients_loop; [|exact Hn0|now rewrite keys_map_pair].
    now rewrite map_map.
Qed.

(** X6.  With a random source that draws from its population once the
    library's checks have passed, on a corpus of distinct pages, the sampling
    estimator raises in three cases only: IndexError on the empty corpus
    (whatever the sample count); ZeroDivisionError on a non-empty corpus with
    sample count 0; and, for a positive sample count, the ValueError of
    [random.choices], which needs a page whose weights have a total that is
    not greater than zero and finite.  The first two always raise, and
    ValueError is raised whenever the weights are refused at every page.  It
    never raises KeyError, and it returns for every negative sample count. *)
Theorem sample_pagerank_raises :
  forall (F : Type) (HF : PyFloat F) (R : Random F) (corpus : Corpus) (d : F)
         (n : Z) (g : rng R),
    random_sound R ->
    NoDup (keys corpus) ->
    (forall e, sample_pagerank R corpus d n g = Raise e ->
       (corpus = [] /\ e = IndexError) \/
       (corpus <> [] /\ n = 0 /\ e = ZeroDivisionError) \/
       (corpus <> [] /\ 0 < n /\ e = ValueError /\
        exists p, In p (keys corpus) /\ accepted_at corpus d p = false))
    /\ (corpus = [] -> sample_pagerank R corpus d n g = Raise IndexError)
    /\ (corpus <> [] -> n = 0 ->
        sample_pagerank R corpus d n g = Raise ZeroDivisionError)
    /\ (corpus <> [] -> 0 < n ->
        (forall p, In p (keys corpus) -> accepted_at corpus d p = false) ->
        sample_pagerank R corpus d n g = Raise ValueError).
Proof.
  intros F HF R corpus d n g HR Hnd. split; [|split; [|split]].
  - intros e Hraise. destruct corpus as [|kv t] eqn:Ec.
    + rewrite sample_pagerank_empty in Hraise. left. split; congruence.
    + rewrite <- Ec in *. assert (Hne : corpus <> []) by congruence.
      right. destruct (Z.lt_trichotomy n 0) as [Hn|[->|Hn]].
      * rewrite sample_pagerank_no_steps in Hraise by (auto; lia).
        destruct (Z.eqb_spec n 0); [lia | discriminate].
      * rewrite sample_pagerank_no_steps in Hraise by (auto; lia).
        left. repeat split; auto. simpl in Hraise. congruence.
      * right. unfold sample_pagerank in Hraise.
        destruct (sample_walk_cases R HR corpus Hnd d n g Hne)
          as [(counts & Hwalk & Hkeys & _) | (Hwalk & _ & Hp)];
          rewrite Hwalk in Hraise; cbn [bind] in Hraise.
        -- rewrite <- Hkeys in Hraise.
           rewrite quotients_loop in Hraise; [discriminate | lia | congruence].
        -- repeat split; auto. congruence.
  - intros ->. apply sample_pagerank_empty.
  - intros Hne ->. now rewrite sample_pagerank_no_steps by (auto; lia).
  - intros Hne Hn Hall. unfold sample_pagerank.
    now rewrite (sample_walk_refused R HR corpus Hnd d n g Hne Hn Hall).
Qed.

Lemma Zsum_bound (c : Z) (cs : list Z) :
  Forall (fun x => 0 <= x) cs -> In c cs -> c <= Zsum cs.
Proof.
  induction cs as [|x cs IH]; simpl; [tauto|].
  intros Hall [->|Hin]; inversion Hall; subst.
  - assert (0 <= Zsum cs).
    { clear - H2. induction cs; simpl; [lia|]. inversion H2; subst.
      specialize (IHcs H3). lia. }
    lia.
  - specialize (IH H2 Hin). lia.
Qed.

(** X7.  In exact arithmetic, on a non-empty corpus, for a damping factor d
    with 0 <= d < 1 and a positive sample count, the sampling estimator
    returns a dictionary and every PageRank value in it lies between 0 and 1,
    as its docstring says. *)
Theorem sample_pagerank_values_in_unit :
  forall (R : Random Qc) (corpus : Corpus) (d : Qc) (n : Z) (g : rng R),
    random_sound R ->
    corpus <> [] ->
    NoDup (keys corpus) ->
    (0 <= d)%Qc -> (d < 1)%Qc ->
    0 < n ->
    exists r,
      sample_pagerank R corpus d n g = Ok r /\
      forall k v, In (k, v) r -> (0 <= v)%Qc /\ (v <= 1)%Qc.
Proof.
  intros R corpus d n g HR Hne Hnd Hd0 Hd1 Hn.
  pose proof (weights_accepted_exact corpus d Hnd Hd0 Hd1) as Hacc.
  destruct (sample_pagerank_shape R corpus d n g HR Hne Hnd Hn Hacc)
    as (counts & _ & _ & Hpos & Hsum & Hres).
  eexists. split; [exact Hres|].
  intros k v Hin. apply in_map_iff in Hin as ([k' c] & [= <- <-] & Hin).
  simpl. qc_ops.
  assert (Hc : In c (values counts)).
  { unfold values. apply in_map_iff. exists (k', c). auto. }
  assert (Hc0 : 0 <= c) by (rewrite Forall_forall in Hpos; now apply Hpos).
  assert (Hcn : c <= n) by (rewrite <- Hsum; now apply Zsum_bound).
  assert (Hnpos : (0 < of_int (F := Qc) n)%Qc).
  { rewrite <- of_int_Qc_0. now apply of_int_Qc_lt. }
  split.
  - apply Qc_div_nonneg; [|exact Hnpos].
    rewrite <- of_int_Qc_0. now apply of_int_Qc_le.
  - apply Qc_div_le; [exact Hnpos|]. rewrite Qcmult_1_l.
    now apply of_int_Qc_le.
Qed.

(** ** More on the iterative estimator *)

Section IterateOutcome.

Context {F : Type} `{PyFloat F}.
Variable corpus : Corpus.
Variable d : F.

Lemma normalize_raises (s : dict F) (e : exn) :
  NoDup (keys s) ->
  normalize s = Raise e ->
  e = ZeroDivisionError /\ s <> [] /\ is_zero (py_sum (values s)) = true.
Proof.
  intros Hnd. unfold normalize.
  remember (py_sum (values s)) as z eqn:Ez. clear Ez.
  destruct (is_zero z) eqn:Hz.
  - destruct s as [|[k v] s']; [discriminate|].
    change (keys ((k, v) :: s')) with (k :: keys s').
    cbn [for_each]. unfold item. cbn [dget]. rewrite String.eqb_refl.
    cbn [bind]. unfold div_float. rewrite Hz. cbn [bind].
    intros [= <-]. repeat split. discriminate.
  - pose proof (normalize_loop z s [] Hz Hnd) as Hloop. simpl app in Hloop.
    rewrite Hloop. discriminate.
Qed.

(** From a vector that has every page, passes raise nothing: the loop can
    raise only in the closing normalisation. *)
Lemma iterate_loop_raises (fuel : nat) (s : dict F) (e : exn) :
  corpus <> [] ->
  incl (keys corpus) (keys s) ->
  iterate_loop fuel corpus d s = Some (Raise e) ->
  exists j s',
    (j < fuel)%nat /\
    nth_pass j corpus d s = Ok (s', len corpus) /\
    keys s' = keys s /\
    normalize s' = Raise e.
Proof.
  intros Hne. revert s. induction fuel as [|fuel IH]; intros s Hs; simpl;
    [discriminate|].
  destruct (one_pass_total corpus d s Hne Hs) as (s1 & c1 & Hpass & Hk).
  rewrite Hpass. destruct (Z.eqb_spec c1 (len corpus)) as [->|Hc].
  - intros [= Hnorm]. exists O, s1. repeat split; auto. lia.
  - intros Hrun. destruct (IH s1) as (j & s' & Hj & Hnth & Hk' & Hnorm); auto.
    { now rewrite Hk. }
    exists (S j), s'. repeat split; [lia | | congruence | exact Hnorm].
    simpl. rewrite Hpass. exact Hnth.
Qed.

End IterateOutcome.

(** X8.  The iterative estimator returns the empty dictionary on the empty
    corpus, at once.  On a corpus of distinct pages the only exception it can
    raise is ZeroDivisionError, and only in the closing normalisation, when
    the ranks of the pass that ended the loop sum to zero; no pass raises. *)
Theorem iterate_pagerank_raises :
  forall (F : Type) (HF : PyFloat F),
    (forall (d : F) (fuel : nat),
        iterate_pagerank (S fuel) [] d = Some (Ok []))
    /\ (forall (corpus : Corpus) (d : F) (fuel : nat) (e : exn),
           NoDup (keys corpus) ->
           iterate_pagerank fuel corpus d = Some (Raise e) ->
           e = ZeroDivisionError /\
           exists (s0 s' : dict F) (j : nat),
             initial_ranks corpus = Ok s0 /\
             (j < fuel)%nat /\
             nth_pass j corpus d s0 = Ok (s', len corpus) /\
             is_zero (py_sum (values s')) = true).
Proof.
  intros F HF. split; [reflexivity|].
  intros corpus d fuel e Hnd Hrun.
  destruct corpus as [|kv t] eqn:Ec.
  - destruct fuel; discriminate.
  - rewrite <- Ec in *. assert (Hne : corpus <> []) by congruence.
    unfold iterate_pagerank in Hrun.
    rewrite (initial_ranks_map corpus Hnd Hne) in *.
    apply iterate_loop_raises in Hrun as (j & s' & Hj & Hnth & Hk & Hnorm);
      [|exact Hne|rewrite keys_map_pair; apply incl_refl].
    apply normalize_raises in Hnorm as (-> & _ & Hz).
    + split; [reflexivity|]. eauto 8.
    + rewrite Hk, keys_map_pair. exact Hnd.
Qed.

(** X8 with damping factor 1.0 on the single-page corpus, in binary64: the
    rank of the sink falls to 0.0 and the normalisation divides by 0.0. *)
Lemma iterate_pagerank_raises_witness :
  ZeroDivisionError = ZeroDivisionError /\
  exists (s0 s' : dict float) (j : nat),
    initial_ranks single_page = Ok s0 /\
    (j < 2)%nat /\
    nth_pass j single_page 1%float s0 = Ok (s', len single_page) /\
    is_zero (py_sum (values s')) = true.
Proof.
  apply (proj2 (iterate_pagerank_raises float _) single_page 1%float 2%nat
           ZeroDivisionError).
  - distinct_strings.
  - vm_compute. reflexivity.
Defined.

Section ExactRanks.

#[local] Open Scope Qc_scope.

Variable corpus : Corpus.
Variable d : Qc.
Hypothesis corpus_nonempty : corpus <> [].
Hypothesis d_nonneg : 0 <= d.
Hypothesis d_below_one : d < 1.

Lemma of_int_len_pos {A : Type} (l : list A) :
  l <> [] -> 0 < of_int (F := Qc) (len l).
Proof.
  intros Hl. rewrite <- of_int_Qc_0. apply of_int_Qc_lt.
  destruct l; [congruence|]. rewrite len_cons. unfold len. lia.
Qed.

(** Over positive ranks the new rank of a page is positive: it is at least
    the teleport term. *)
Lemma new_rank_positive (s : dict Qc) (i : string) :
  incl (keys corpus) (keys s) ->
  Forall (fun kv => 0 < snd kv) s ->
  exists v, new_rank corpus d s i = Ok v /\ 0 < v.
Proof.
  intros Hs Hpos. unfold new_rank.
  rewrite div_int_nonzero by (rewrite len_zero_iff; exact corpus_nonempty).
  cbn [bind].
  assert (Hloop : forall l acc, incl l (keys corpus) -> 0 <= acc ->
            exists acc',
              for_each (fun sum_Iteration p =>
                  links <- item p corpus ;;
                  if contains i links then
                    r <- item p s ;;
                    q <- div_int r (len links) ;;
                    Ok (fadd sum_Iteration q)
                  else Ok sum_Iteration) l acc = Ok acc' /\ 0 <= acc').
  { induction l as [|p l IH]; intros acc Hl Hacc; simpl; [eauto|].
    assert (Hp : In p (keys corpus)) by (apply Hl; now left).
    destruct (item_ok _ _ Hp) as (links & Hitem & _). rewrite Hitem. simpl.
    assert (Hl' : incl l (keys corpus)) by (intros x Hx; apply Hl; now right).
    destruct (contains i links) eqn:Hc; [|simpl; now apply IH].
    destruct (item_ok _ _ (Hs _ Hp)) as (r & Hr & Hget). rewrite Hr. simpl.
    assert (Hlinks : links <> []) by (intros ->; discriminate).
    rewrite div_int_nonzero by (rewrite len_zero_iff; exact Hlinks).
    simpl. apply IH; [exact Hl'|]. qc_ops.
    apply Qc_add_nonneg; [exact Hacc|].
    apply Qc_div_nonneg; [|now apply of_int_len_pos].
    apply Qclt_le_weak. rewrite Forall_forall in Hpos.
    apply (Hpos (p, r)). now apply dget_in. }
  destruct (Hloop (keys corpus) (of_int 0) (incl_refl _)) as (total & Htotal & H0).
  { rewrite of_int_Qc_0. apply Qcle_refl. }
  rewrite Htotal. cbn [bind]. eexists. split; [reflexivity|]. qc_ops.
  apply Qc_add_pos; [|now apply Qc_mul_nonneg].
  apply Qc_div_pos; [|now apply of_int_len_pos].
  rewrite of_int_Qc_1. apply Qclt_minus_iff in d_below_one. exact d_below_one.
Qed.

Lemma pass_loop_positive (l : list string) (s : dict Qc) (c : Z) :
  incl l (keys corpus) ->
  incl (keys corpus) (keys s) ->
  Forall (fun kv => 0 < snd kv) s ->
  exists s' c',
    for_each (pass_step corpus d) l (s, c) = Ok (s', c') /\
    keys s' = keys s /\
    Forall (fun kv => 0 < snd kv) s'.
Proof.
  revert s c. induction l as [|i l IH]; intros s c Hl Hs Hpos; simpl.
  - eauto.
  - destruct (new_rank_positive s i Hs Hpos) as (v & Hv & Hv0).
    assert (Hi : In i (keys s)) by (apply Hs, Hl; now left).
    destruct (item_ok _ _ Hi) as (old & Hold & _).
    unfold pass_step at 1. rewrite Hv. cbn [bind]. rewrite Hold. cbn [bind].
    destruct (IH (dset i v s)
                 (if check_test old v then (c + 1)%Z else c))
      as (s' & c' & Hrun & Hk & Hpos').
    + intros x Hx. apply Hl. now right.
    + now rewrite keys_dset_in.
    + now apply Forall_dset.
    + exists s', c'. split; [exact Hrun|]. split; [|exact Hpos'].
      rewrite Hk. now apply keys_dset_in.
Qed.

Lemma Qsum_positive (vs : list Qc) :
  Forall (fun v => 0 < v) vs ->
  (vs <> [] -> 0 < Qsum vs) /\ forall v, In v vs -> v <= Qsum vs.
Proof.
  induction 1 as [|x vs Hx Hall IH]; cbn [Qsum fold_right].
  - split; [congruence | intros v []].
  - fold (Qsum vs). destruct IH as [IH1 IH2].
    assert (H0 : 0 <= Qsum vs).
    { destruct vs; [apply Qcle_refl|]. apply Qclt_le_weak, IH1. discriminate. }
    split.
    + intros _. now apply Qc_add_pos.
    + intros v [<-|Hv].
      * rewrite <- (Qcplus_0_r x) at 1.
        apply Qcplus_le_compat; [apply Qcle_refl | exact H0].
      * rewrite <- (Qcplus_0_l v).
        apply Qcplus_le_compat; [now apply Qclt_le_weak | now apply IH2].
Qed.

(** The normalisation of a non-empty vector of positive ranks returns, and
    its values are positive and at most 1. *)
Lemma normalize_positive (s : dict Qc) :
  s <> [] ->
  NoDup (keys s) ->
  Forall (fun kv => 0 < snd kv) s ->
  exists r,
    normalize s = Ok r /\
    keys r = keys s /\
    forall k v, In (k, v) r -> 0 < v /\ v <= 1.
Proof.
  intros Hne Hnd Hpos.
  assert (Hvals : Forall (fun v => 0 < v) (values s)).
  { unfold values. apply Forall_forall. intros v Hv.
    apply in_map_iff in Hv as (kv & <- & Hin).
    rewrite Forall_forall in Hpos. now apply Hpos. }
  destruct (Qsum_positive (values s) Hvals) as [Hz Hle].
  assert (Hz0 : 0 < Qsum (values s)).
  { apply Hz. destruct s; [congruence | discriminate]. }
  assert (His : is_zero (py_sum (values s)) = false).
  { rewrite py_sum_Qc. cbn [is_zero PyFloat_Qc].
    destruct (Qeq_bool (Qsum (values s)) 0) eqn:E; auto.
    apply Qeq_bool_eq in E. exfalso.
    apply (Qclt_not_eq _ _ Hz0). symmetry. now apply Qc_is_canon. }
  unfold normalize.
  pose proof (normalize_loop (py_sum (values s)) s [] His Hnd) as Hloop.
  simpl app in Hloop. rewrite Hloop. eexists. split; [reflexivity|].
  split; [unfold keys; rewrite map_map; reflexivity|].
  intros k v Hin. apply in_map_iff in Hin as ([k' x] & [= <- <-] & Hin).
  simpl. rewrite py_sum_Qc. qc_ops.
  assert (Hx : 0 < x) by (rewrite Forall_forall in Hpos; apply (Hpos _ Hin)).
  split; [now apply Qc_div_pos|].
  apply Qc_div_le; [exact Hz0|]. rewrite Qcmult_1_l.
  apply Hle. unfold values. apply in_map_iff. exists (k', x). auto.
Qed.

Lemma iterate_loop_positive (fuel : nat) (s : dict Qc)
    (out : res (dict Qc)) :
  incl (keys corpus) (keys s) ->
  NoDup (keys s) ->
  Forall (fun kv => 0 < snd kv) s ->
  iterate_loop fuel corpus d s = Some out ->
  exists r,
    out = Ok r /\ keys r = keys s /\
    forall k v, In (k, v) r -> 0 < v /\ v <= 1.
Proof.
  revert s out. induction fuel as [|fuel IH]; intros s out Hs Hnd Hpos; simpl;
    [discriminate|].
  destruct (pass_loop_positive (keys corpus) s 0 (incl_refl _) Hs Hpos)
    as (s1 & c1 & Hpass & Hk & Hpos1).
  unfold one_pass. rewrite Hpass.
  destruct (c1 =? len corpus)%Z.
  - intros [= <-].
    destruct (normalize_positive s1) as (r & Hr & Hkr & Hvals); auto.
    + intros ->. simpl in Hk. apply corpus_nonempty.
      destruct (keys corpus) as [|k0 ks] eqn:Ek.
      * unfold keys in Ek. now apply map_eq_nil in Ek.
      * exfalso. assert (Hin : In k0 (keys s)) by (apply Hs; now left).
        rewrite <- Hk in Hin. inversion Hin.
    + now rewrite Hk.
    + exists r. split; [exact Hr|]. split; [congruence | exact Hvals].
  - intros Hrun. destruct (IH s1 out) as (r & Hr & Hkr & Hvals); auto.
    + now rewrite Hk.
    + now rewrite Hk.
    + exists r. split; [exact Hr|]. split; [congruence | exact Hvals].
Qed.

End ExactRanks.

(** X9.  In exact arithmetic, on a non-empty corpus of distinct pages and for
    a damping factor d with 0 <= d < 1, every rank stays positive through
    every pass, so the closing normalisation never divides by zero: whenever
    the iterative estimator finishes it returns a dictionary, over the pages
    of the corpus in their order, whose values are positive and at most 1. *)
Theorem iterate_pagerank_values_in_unit :
  forall (corpus : Corpus) (d : Qc) (fuel : nat) (out : res (dict Qc)),
    corpus <> [] ->
    NoDup (keys corpus) ->
    (0 <= d)%Qc -> (d < 1)%Qc ->
    iterate_pagerank fuel corpus d = Some out ->
    exists r,
      out = Ok r /\ keys r = keys corpus /\
      forall k v, In (k, v) r -> (0 < v)%Qc /\ (v <= 1)%Qc.
Proof.
  intros corpus d fuel out Hne Hnd Hd0 Hd1 Hrun.
  unfold iterate_pagerank in Hrun.
  rewrite (initial_ranks_map corpus Hnd Hne) in Hrun.
  apply (iterate_loop_positive corpus d Hne Hd0 Hd1) in Hrun.
  - rewrite keys_map_pair in Hrun. exact Hrun.
  - rewrite keys_map_pair. apply incl_refl.
  - now rewrite keys_map_pair.
  - apply Forall_forall. intros kv Hin.
    apply in_map_iff in Hin as (k & <- & _). cbn [snd]. qc_ops.
    apply Qc_div_pos; [|now apply of_int_len_pos].
    rewrite of_int_Qc_1. reflexivity.
Qed.

(** ** From the directory to the ranks *)

Lemma crawl_keys (findall : string -> list string)
    (directory : list (string * string)) :
  NoDup (map fst directory) ->
  exists corpus,
    crawl findall directory = Ok corpus /\
    keys corpus = html_files directory /\
    NoDup (keys corpus).
Proof.
  intros Hnames.
  pose proof (crawl_closed_form findall directory) as Hcrawl. cbv zeta in Hcrawl.
  rewrite (crawl_read_fresh findall directory []) in Hcrawl by exact Hnames.
  simpl app in Hcrawl.
  eexists. split; [exact Hcrawl|].
  assert (HK : forall f : string * list string -> list string,
             keys (map (fun kv => (fst kv, f kv))
                       (map (fun e : string * string =>
                               (fst e,
                                filter (fun link => negb (String.eqb link (fst e)))
                                       (nodup string_dec (findall (snd e)))))
                            (filter (fun e => endswith (fst e) ".html") directory)))
             = html_files directory).
  { intros f. rewrite keys_map_snd. unfold keys. rewrite map_map. simpl.
    apply (map_fst_filter (fun name => endswith name ".html")). }
  split; [apply HK|]. rewrite HK. now apply NoDup_filter.
Qed.

(** For a positive sample count on a non-empty corpus the sampling estimator
    returns the quotients of its counters, or raises the ValueError of
    [random.choices]. *)
Lemma sample_pagerank_cases {F : Type} `{PyFloat F} (R : Random F)
    (corpus : Corpus) (d : F) (n : Z) (g : rng R) :
  random_sound R ->
  corpus <> [] ->
  NoDup (keys corpus) ->
  0 < n ->
  (exists r, sample_pagerank R corpus d n g = Ok r /\ keys r = keys corpus)
  \/ (sample_pagerank R corpus d n g = Raise ValueError /\
      weights_accepted corpus d = false).
Proof.
  intros HR Hne Hnd Hn. unfold sample_pagerank.
  destruct (sample_walk_cases R HR corpus Hnd d n g Hne)
    as [(counts & Hwalk & Hkeys & _) | (Hwalk & _ & p & Hp & Hrefused)];
    rewrite Hwalk; cbn [bind].
  - left. rewrite <- Hkeys.
    rewrite quotients_loop; [|lia|congruence].
    eexists. split; [reflexivity|].
    now rewrite keys_map_snd with (f := fun kc => fquot (of_int (snd kc)) (of_int n)).
  - right. split; [reflexivity|].
    destruct (weights_accepted corpus d) eqn:Hacc; [|reflexivity].
    unfold weights_accepted in Hacc. rewrite forallb_forall in Hacc.
    rewrite (Hacc p Hp) in Hrefused. discriminate.
Qed.

(** In exact arithmetic the weights of a corpus whose out-sets are
    duplicate-free and closed sum to 1 at every page, so [random.choices]
    accepts them, for every damping factor. *)
Lemma weights_accepted_closed (corpus : Corpus) (d : Qc) :
  NoDup (keys corpus) ->
  (forall page links, dget page corpus = Some links ->
                      NoDup links /\ incl links (keys corpus)) ->
  weights_accepted corpus d = true.
Proof.
  intros Hnd Hclosed. unfold weights_accepted. apply forallb_forall.
  intros page Hpage. apply dget_in_keys in Hpage as [links Hget].
  destruct (Hclosed page links Hget) as [Hl Hincl].
  destruct (transition_model_mass corpus page links d Hnd Hl Hget)
    as (r & Hr & Hkr & Hsum).
  assert (Hout : filter (fun l => negb (contains l (keys corpus))) links = []).
  { apply filter_nil_iff. intros x Hx. apply negb_false_iff, contains_In. auto. }
  rewrite Hout in Hsum. change (len (@nil string)) with 0%Z in Hsum.
  rewrite of_int_Qc_0 in Hsum. unfold Qcdiv in Hsum.
  rewrite Qcmult_0_l, Qcmult_0_r in Hsum. rewrite py_sum_Qc in Hsum.
  unfold accepted_at. rewrite Hr.
  destruct (choices_total_exact (keys r) (values r)) as [total Ht].
  - unfold len, keys, values. now rewrite !length_map.
  - rewrite Hsum. reflexivity.
  - now rewrite Ht.
Qed.

(** X10.  The two estimators on a crawled directory of distinct names, for a
    positive sample count.  When no name ends in ".html" the corpus is empty:
    the sampling estimator raises IndexError, where the iterative estimator
    would return the empty dictionary.  Otherwise, in every arithmetic, the
    sampling estimator returns a dictionary over exactly the ".html" names,
    in the order of the listing, when [random.choices] accepts the weights
    of every page, and the only exception it can raise is the ValueError of
    [random.choices], at weights that are refused.  In exact arithmetic the
    weights of a crawled corpus are accepted for every damping factor, and
    the estimator returns. *)
Theorem crawl_then_sample :
  (forall (F : Type) (HF : PyFloat F) (R : Random F)
          (findall : string -> list string)
          (directory : list (string * string)) (d : F) (n : Z) (g : rng R),
      random_sound R ->
      NoDup (map fst directory) ->
      0 < n ->
      exists corpus,
        crawl findall directory = Ok corpus /\
        ((html_files directory = [] /\
          sample_pagerank R corpus d n g = Raise IndexError /\
          forall fuel, iterate_pagerank (S fuel) corpus d = Some (Ok []))
         \/
         (html_files directory <> [] /\
          (weights_accepted corpus d = true ->
           exists r, sample_pagerank R corpus d n g = Ok r /\
                     keys r = html_files directory) /\
          (forall e, sample_pagerank R corpus d n g = Raise e ->
                     e = ValueError /\ weights_accepted corpus d = false))))
  /\ (forall (R : Random Qc) (findall : string -> list string)
             (directory : list (string * string)) (d : Qc) (n : Z) (g : rng R),
         random_sound R ->
         NoDup (map fst directory) ->
         0 < n ->
         html_files directory <> [] ->
         exists corpus r,
           crawl findall directory = Ok corpus /\
           weights_accepted corpus d = true /\
           sample_pagerank R corpus d n g = Ok r /\
           keys r = html_files directory).
Proof.
  split.
  - intros F HF R findall directory d n g HR Hnames Hn.
    destruct (crawl_keys findall directory Hnames) as (corpus & Hcrawl & Hk & Hnd).
    exists corpus. split; [exact Hcrawl|].
    destruct (html_files directory) as [|name names] eqn:Eh.
    + left. assert (Hc : corpus = []).
      { unfold keys in Hk. now apply map_eq_nil in Hk. }
      subst corpus. repeat split.
    + right. split; [discriminate|].
      assert (Hne : corpus <> []) by (intros ->; discriminate).
      destruct (sample_pagerank_cases R corpus d n g HR Hne Hnd Hn)
        as [(r & Hr & Hkr) | (Hraise & Hrefused)].
      * split.
        -- intros _. exists r. split; [exact Hr | congruence].
        -- intros e He. congruence.
      * split.
        -- intros Hacc. congruence.
        -- intros e He. split; congruence.
  - intros R findall directory d n g HR Hnames Hn Hhtml.
    destruct (crawl_keys findall directory Hnames) as (corpus & Hcrawl & Hk & Hnd).
    destruct (crawl_invariants findall directory) as (corpus' & Hcrawl' & _ & Hinv).
    assert (corpus' = corpus) by congruence. subst corpus'.
    assert (Hacc : weights_accepted corpus d = true).
    { apply weights_accepted_closed; [exact Hnd|].
      intros page links Hget. destruct (Hinv page links Hget) as (? & ? & _). auto. }
    assert (Hne : corpus <> []).
    { intros ->. apply Hhtml. now rewrite <- Hk. }
    destruct (sample_pagerank_cases R corpus d n g HR Hne Hnd Hn)
      as [(r & Hr & Hkr) | (_ & Hrefused)]; [|congruence].
    exists corpus, r. repeat split; auto. congruence.
Qed.

(** X11.  No weight is lost on a crawled corpus: whatever the listing and the
    links found, for every page of the corpus [crawl] returns and every
    damping factor, the weights of the transition model sum to 1 in exact
    arithmetic. *)
Theorem crawl_then_transition :
  forall (findall : string -> list string) (directory : list (string * string))
         (d : Qc),
    exists corpus,
      crawl findall directory = Ok corpus /\
      forall page,
        In page (keys corpus) ->
        exists r,
          transition_model corpus page d = Ok r /\
          keys r = keys corpus /\
          py_sum (values r) = 1%Qc.
Proof.
  intros findall directory d.
  destruct (crawl_invariants findall directory) as (corpus & Hcrawl & Hnd & Hinv).
  exists corpus. split; [exact Hcrawl|].
  intros page Hpage. apply dget_in_keys in Hpage as [links Hget].
  destruct (Hinv page links Hget) as (Hl & Hincl & _).
  destruct (transition_model_mass corpus page links d Hnd Hl Hget)
    as (r & Hr & Hkr & Hsum).
  exists r. split; [exact Hr|]. split; [exact Hkr|]. rewrite Hsum.
  assert (Hout : filter (fun l => negb (contains l (keys corpus))) links = []).
  { apply filter_nil_iff. intros x Hx. apply negb_false_iff, contains_In. auto. }
  rewrite Hout. change (len (@nil string)) with 0%Z. rewrite of_int_Qc_0.
  unfold Qcdiv. rewrite Qcmult_0_l, Qcmult_0_r. ring.
Qed.

(** ** The update step and the transition model *)

Section ChainStep.

#[local] Open Scope Qc_scope.

Variable corpus : Corpus.
Variable d : Qc.
Variable s : dict Qc.
Variable i : string.

Lemma Qsum_map_add (f g : string -> Qc) (l : list string) :
  Qsum (map (fun p => f p + g p) l) = Qsum (map f l) + Qsum (map g l).
Proof.
  induction l as [|a l IH]; cbn [map Qsum fold_right]; [ring|].
  fold (Qsum (map (fun p => f p + g p) l)). fold (Qsum (map f l)).
  fold (Qsum (map g l)). rewrite IH. ring.
Qed.

Lemma Qsum_map_scale (c : Qc) (f : string -> Qc) (l : list string) :
  Qsum (map (fun p => c * f p) l) = c * Qsum (map f l).
Proof.
  induction l as [|a l IH]; cbn [map Qsum fold_right]; [ring|].
  fold (Qsum (map (fun p => c * f p) l)). fold (Qsum (map f l)).
  rewrite IH. ring.
Qed.

Lemma new_rank_inflow :
  corpus <> [] ->
  incl (keys corpus) (keys s) ->
  new_rank corpus d s i
  = Ok ((1 - d) / of_int (len corpus) + d * Qsum (map (inflow corpus s i) (keys corpus))).
Proof.
  intros Hne Hs. unfold new_rank.
  rewrite div_int_nonzero by (rewrite len_zero_iff; exact Hne).
  set (body := fun (sum_Iteration : Qc) (p : string) =>
                 links <- item p corpus ;;
                 if contains i links then
                   r <- item p s ;;
                   q <- div_int r (len links) ;;
                   Ok (fadd sum_Iteration q)
                 else Ok sum_Iteration).
  assert (Hbody : forall acc p, In p (keys corpus) ->
            body acc p = Ok (acc + inflow corpus s i p)).
  { intros acc p Hp. unfold body, inflow.
    destruct (item_ok _ _ Hp) as (links & Hitem & Hget).
    rewrite Hitem, Hget. cbn [bind].
    destruct (contains i links) eqn:Hc.
    - destruct (item_ok _ _ (Hs _ Hp)) as (r & Hr & Hgr).
      rewrite Hr. cbn [bind].
      rewrite div_int_nonzero
        by (rewrite len_zero_iff; intros ->; discriminate).
      cbn [bind]. unfold rank_at. rewrite Hgr. reflexivity.
    - rewrite of_int_Qc_0. f_equal. ring. }
  assert (Hloop : forall l acc, incl l (keys corpus) ->
            for_each body l acc = Ok (acc + Qsum (map (inflow corpus s i) l))).
  { induction l as [|p l IH]; intros acc Hl; cbn [for_each map Qsum fold_right].
    - f_equal. ring.
    - fold (Qsum (map (inflow corpus s i) l)).
      rewrite Hbody by (apply Hl; now left). cbn [bind].
      rewrite IH by (intros x Hx; apply Hl; now right). f_equal. ring. }
  cbn [bind]. rewrite Hloop by apply incl_refl. cbn [bind]. qc_ops.
  rewrite of_int_Qc_0, of_int_Qc_1. f_equal. ring.
Qed.

Hypothesis corpus_keys : NoDup (keys corpus).
Hypothesis out_sets : forall p links, dget p corpus = Some links -> NoDup links.
Hypothesis i_page : In i (keys corpus).

Lemma chain_weight_cases (p : string) (links : list string) :
  dget p corpus = Some links ->
  chain_weight corpus d p i
  = (1 - d) / of_int (len corpus)
    + (if is_sink corpus p then d / of_int (len corpus) else 0)
    + (if contains i links then d / of_int (len links) else 0).
Proof.
  intros Hget. unfold chain_weight, is_sink.
  rewrite (transition_model_map corpus p links d corpus_keys Hget), Hget.
  unfold rank_at.
  rewrite (dget_NoDup i (weight corpus links d i)).
  - rewrite weight_cases by (eapply out_sets; eauto). unfold teleport. qc_ops.
    rewrite of_int_Qc_1. destruct links as [|l0 links']; [simpl; ring|].
    destruct (contains i (l0 :: links')); ring.
  - now rewrite keys_map_pair.
  - apply in_map_iff. exists i. auto.
Qed.

Lemma chain_step_term (p : string) :
  In p (keys corpus) ->
  rank_at s p * chain_weight corpus d p i
  = (1 - d) / of_int (len corpus) * rank_at s p
    + (d / of_int (len corpus)
       * (if is_sink corpus p then rank_at s p else 0)
       + d * inflow corpus s i p).
Proof.
  intros Hp. apply dget_in_keys in Hp as [links Hget].
  rewrite (chain_weight_cases p links Hget). unfold inflow. rewrite Hget.
  qc_ops. rewrite of_int_Qc_0.
  assert (HN : of_int (F := Qc) (len corpus) <> 0).
  { apply of_int_Qc_nonzero. rewrite len_zero_iff. intros ->. inversion i_page. }
  destruct (contains i links) eqn:Hc.
  - assert (HL : of_int (F := Qc) (len links) <> 0).
    { apply of_int_Qc_nonzero. rewrite len_zero_iff. intros ->. discriminate. }
    destruct (is_sink corpus p); field; auto.
  - destruct (is_sink corpus p); field; auto.
Qed.

End ChainStep.

(** X12.  The update step of the iterative estimator against the transition
    model, in exact arithmetic, on a corpus of distinct pages with
    duplicate-free out-sets.  The new rank of page [i] is the weight that one
    step of the chain of the transition model brings to [i] from the ranks
    held, less the share d/N of the rank held by sinks, plus the teleport term
    (1-d)/N for the part by which the ranks fall short of 1.  On a corpus
    without sinks and a vector of ranks that sums to 1 it is exactly one step
    of the chain. *)
Theorem update_is_chain_step :
  forall (corpus : Corpus) (d : Qc) (s : dict Qc) (i : string),
    NoDup (keys corpus) ->
    (forall p links, dget p corpus = Some links -> NoDup links) ->
    incl (keys corpus) (keys s) ->
    In i (keys corpus) ->
    new_rank corpus d s i
    = Ok (Qsum (map (fun p => rank_at s p * chain_weight corpus d p i)
                    (keys corpus))
          - d / of_int (len corpus)
            * Qsum (map (fun p => if is_sink corpus p then rank_at s p
                                  else 0%Qc) (keys corpus))
          + (1 - d) / of_int (len corpus)
            * (1 - Qsum (map (rank_at s) (keys corpus))))%Qc.
Proof.
  intros corpus d s i Hnd Hout Hs Hi.
  assert (Hne : corpus <> []) by (intros ->; inversion Hi).
  rewrite (new_rank_inflow corpus d s i Hne Hs). f_equal.
  rewrite (map_ext_in _ _ _ (chain_step_term corpus d s i Hnd Hout Hi)).
  rewrite Qsum_map_add, Qsum_map_add, !Qsum_map_scale. ring.
Qed.

(** ** The further theorems at concrete inputs *)

(** X2 on the example directory. *)
Lemma crawl_pages_and_links_witness :
  exists corpus,
    crawl example_findall example_directory = Ok corpus /\
    keys corpus = html_files example_directory /\
    forall name contents,
      In (name, contents) example_directory ->
      endswith name ".html" = true ->
      exists links,
        dget name corpus = Some links /\
        forall link,
          In link links <->
          (In link (example_findall contents) /\ link <> name /\
           In link (html_files example_directory)).
Proof.
  apply (crawl_pages_and_links example_findall example_directory).
  distinct_strings.
Defined.

(** X4 at page "a.html" of the corpus with a dangling link: half of the
    damping factor is lost. *)
Lemma transition_model_lost_mass_witness :
  exists r,
    transition_model dangling_corpus "a.html" (DAMPING (F := Qc)) = Ok r /\
    py_sum (values r)
    = (1 - DAMPING
           * (of_int (len (filter (fun l => negb (contains l (keys dangling_corpus)))
                                  ["b.html"; "x.html"]))
              / of_int (len ["b.html"; "x.html"])))%Qc /\
    (py_sum (values r) = 1%Qc <->
     DAMPING = 0%Qc \/ incl ["b.html"; "x.html"] (keys dangling_corpus)).
Proof.
  apply (transition_model_lost_mass dangling_corpus "a.html"
           ["b.html"; "x.html"] DAMPING).
  - distinct_strings.
  - distinct_strings.
  - reflexivity.
Defined.

(** X5 at page "2.html" of the scenario corpus with damping factor 0.85. *)
Lemma transition_model_probabilities_witness :
  exists r,
    transition_model scenario_corpus "2.html" (DAMPING (F := Qc)) = Ok r /\
    forall p w, In (p, w) r -> (0 <= w)%Qc /\ (w <= 1)%Qc.
Proof.
  apply (transition_model_probabilities scenario_corpus "2.html"
           ["1.html"; "3.html"] DAMPING).
  - distinct_strings.
  - distinct_strings.
  - reflexivity.
  - unfold Qcle, Qle. simpl. lia.
  - unfold Qcle, Qle. simpl. lia.
Defined.

(** X6 on two pages that link to each other, in binary64, with damping factor
    1e17 and one sample: the weights are -5e16 and 5e16 at either page, their
    total is 0.0 and [random.choices] raises ValueError. *)
Lemma sample_pagerank_raises_witness :
  sample_pagerank (scripted float visits) two_cycle 1e17%float 1 0%nat
  = Raise ValueError.
Proof.
  apply (proj2 (proj2 (proj2
           (sample_pagerank_raises float _ (scripted float visits) two_cycle
              1e17%float 1 0%nat (scripted_sound float visits)
              ltac:(distinct_strings))))).
  - discriminate.
  - lia.
  - intros p [<-|[<-|[]]]; vm_compute; reflexivity.
Defined.

(** X7 on the scenario corpus with damping factor 0.85, 35 samples and the
    scripted walk. *)
Lemma sample_pagerank_values_in_unit_witness :
  exists r,
    sample_pagerank (scripted Qc visits) scenario_corpus DAMPING 35 0%nat
    = Ok r /\
    forall k v, In (k, v) r -> (0 <= v)%Qc /\ (v <= 1)%Qc.
Proof.
  apply (sample_pagerank_values_in_unit (scripted Qc visits) scenario_corpus
           DAMPING 35 0%nat).
  - apply scripted_sound.
  - discriminate.
  - distinct_strings.
  - unfold Qcle, Qle. simpl. lia.
  - reflexivity.
  - reflexivity.
Defined.

(** X9 on the two-page corpus with damping factor 0.85, which finishes at the
    third pass. *)
Lemma iterate_pagerank_values_in_unit_witness :
  exists (out : res (dict Qc)) (r : dict Qc),
    iterate_pagerank 3 sink_corpus DAMPING = Some out /\
    out = Ok r /\ keys r = keys sink_corpus /\
    forall k v, In (k, v) r -> (0 < v)%Qc /\ (v <= 1)%Qc.
Proof.
  eexists.
  assert (Hrun : iterate_pagerank 3 sink_corpus (DAMPING (F := Qc))
                 = Some (Ok (match iterate_pagerank 3 sink_corpus
                                     (DAMPING (F := Qc)) with
                             | Some (Ok r) => r
                             | _ => []
                             end))).
  { vm_compute. reflexivity. }
  destruct (iterate_pagerank_values_in_unit sink_corpus DAMPING 3 _
              ltac:(discriminate) ltac:(distinct_strings)
              ltac:(unfold Qcle, Qle; simpl; lia) ltac:(reflexivity) Hrun)
    as (r & Hr & Hk & Hv).
  exists r. split; [exact Hrun|]. auto.
Defined.

(** X10 on the example directory with damping factor 0.85 and 35 samples, in
    binary64 and in exact arithmetic. *)
Lemma crawl_then_sample_witness :
  (exists corpus,
      crawl example_findall example_directory = Ok corpus /\
      ((html_files example_directory = [] /\
        sample_pagerank (scripted float visits) corpus DAMPING 35 0%nat
        = Raise IndexError /\
        forall fuel, iterate_pagerank (S fuel) corpus (DAMPING (F := float))
                     = Some (Ok []))
       \/
       (html_files example_directory <> [] /\
        (weights_accepted corpus (DAMPING (F := float)) = true ->
         exists r, sample_pagerank (scripted float visits) corpus DAMPING 35
                                   0%nat = Ok r /\
                   keys r = html_files example_directory) /\
        (forall e, sample_pagerank (scripted float visits) corpus DAMPING 35
                                   0%nat = Raise e ->
                   e = ValueError /\
                   weights_accepted corpus (DAMPING (F := float)) = false))))
  /\ exists corpus r,
       crawl example_findall example_directory = Ok corpus /\
       weights_accepted corpus (DAMPING (F := Qc)) = true /\
       sample_pagerank (scripted Qc visits) corpus DAMPING 35 0%nat = Ok r /\
       keys r = html_files example_directory.
Proof.
  split.
  - apply (proj1 crawl_then_sample float _ (scripted float visits)
             example_findall example_directory DAMPING 35 0%nat).
    + apply scripted_sound.
    + distinct_strings.
    + reflexivity.
  - apply (proj2 crawl_then_sample (scripted Qc visits) example_findall
             example_directory DAMPING 35 0%nat).
    + apply scripted_sound.
    + distinct_strings.
    + reflexivity.
    + discriminate.
Defined.

(** X12 for page "b.html" of the two-page corpus, from equal ranks. *)
Lemma update_is_chain_step_witness :
  new_rank sink_corpus (DAMPING (F := Qc))
           [("a.html", Q2Qc (1 # 2)); ("b.html", Q2Qc (1 # 2))] "b.html"
  = Ok (Qsum (map (fun p =>
                     rank_at [("a.html", Q2Qc (1 # 2)); ("b.html", Q2Qc (1 # 2))] p
                     * chain_weight sink_corpus DAMPING p "b.html")
                  (keys sink_corpus))
        - DAMPING / of_int (len sink_corpus)
          * Qsum (map (fun p =>
                         if is_sink sink_corpus p
                         then rank_at [("a.html", Q2Qc (1 # 2));
                                       ("b.html", Q2Qc (1 # 2))] p
                         else 0%Qc) (keys sink_corpus))
        + (1 - DAMPING) / of_int (len sink_corpus)
          * (1 - Qsum (map (rank_at [("a.html", Q2Qc (1 # 2));
                                     ("b.html", Q2Qc (1 # 2))])
                           (keys sink_corpus))))%Qc.
Proof.
  apply (update_is_chain_step sink_corpus DAMPING
           [("a.html", Q2Qc (1 # 2)); ("b.html", Q2Qc (1 # 2))] "b.html").
  - distinct_strings.
  - intros p links Hget. simpl in Hget.
    destruct (String.eqb p "a.html"); [inversion Hget; constructor|].
    destruct (String.eqb p "b.html"); [inversion Hget; distinct_strings|].
    discriminate.
  - apply incl_refl.
  - simpl. auto.
Defined.
